(** * In-memory temp storage (package memstore): model and verification

    Shallow embedding of [common/tempstorage/memstore/memstore.go].

    The Go code works on three kinds of heap objects: [memDataCell]s, which
    are shared by pointer between the storage map and the open files,
    [memFile]s, which are the handles returned to callers, and the single
    [memStorage] with its [sync.Map].  The model keeps both heaps explicit
    (a pointer is an index into a list), so that a write through one handle
    is seen through every other handle on the same cell.

    Go's [int64] fields are integers in [Z] with the wrap-around of the
    additions written out.  A run-time panic (nil or dangling pointer,
    slice bounds, slice growth beyond the range of [int]) is [None]. *)

From Stdlib Require Import ZArith Lia Strings.Byte Strings.Ascii Strings.String.
From stdpp Require Import base option list strings gmap fin_maps.

Local Open Scope Z_scope.

(** ** Machine integers *)

Definition MaxInt64 : Z := 2 ^ 63 - 1.
Definition MinInt64 : Z := - 2 ^ 63.

(** Two's complement wrap-around of a 64-bit signed addition. *)
Definition wrap64 (z : Z) : Z := (z + 2 ^ 63) mod 2 ^ 64 - 2 ^ 63.

(** ** Go values *)

(** [error] values the package can hand to its callers: the sentinel
    [io.EOF], a value built by [errors.New], or an error produced by a
    collaborator outside the package (file system, random source). *)
Inductive error : Type :=
  | io_EOF
  | errors_New (msg : string)
  | foreign_error (descr : string).

(** Pointers are indices into the corresponding heap. *)
Definition loc := nat.

(** [type memDataCell struct{ _dfb string; _fef []byte; _feg int64 }]:
    name, content and size. *)
Record memDataCell : Type := MemDataCell {
  _dfb : string;
  _fef : list Byte.byte;
  _feg : Z
}.

(** [type memFile struct{ _df *memDataCell; _gf int64 }]: cell and read
    offset. *)
Record memFile : Type := MemFile {
  _df : loc;
  _gf : Z
}.

(** [type memStorage struct{ _ac sync.Map }]; the map only ever holds
    [*memDataCell] values under [string] keys. *)
Record memStorage : Type := MemStorage {
  _ac : gmap string loc
}.

(** ** Built-ins and standard library functions used by the package *)

(** [make([]byte, n)] *)
Definition make (n : nat) : list Byte.byte := replicate n x00.

(** [copy(dst, src)]: overwrites the first [min(len(dst), len(src))]
    elements of [dst]; yields [dst] afterwards and the count. *)
Definition copy (dst src : list Byte.byte) : list Byte.byte * Z :=
  let n := Nat.min (length dst) (length src) in
  (take n src ++ drop n dst, Z.of_nat n).

(** Slice expression [s[lo:hi]] with its bounds check.  Go checks [hi]
    against the capacity; the model checks it against the length, so it
    panics where Go would panic or expose spare capacity. *)
Definition slice (s : list Byte.byte) (lo hi : Z) : option (list Byte.byte) :=
  if bool_decide (0 ≤ lo ∧ lo ≤ hi ∧ hi ≤ Z.of_nat (length s))
  then Some (take (Z.to_nat (hi - lo)) (drop (Z.to_nat lo) s))
  else None.

(** [append(s, p...)]: the runtime panics when the new length leaves the
    range of [int]. *)
Definition append (s p : list Byte.byte) : option (list Byte.byte) :=
  if bool_decide (Z.of_nat (length s) + Z.of_nat (length p) ≤ MaxInt64)
  then Some (s ++ p)
  else None.

(** [hex.EncodeToString]: two lower-case digits per byte, high nibble
    first. *)
Definition hextable : string := "0123456789abcdef".

Definition hexdigit (n : N) : ascii :=
  default "0"%char (String.get (N.to_nat n) hextable).

Fixpoint EncodeToString (src : list Byte.byte) : string :=
  match src with
  | [] => EmptyString
  | v :: rest =>
      String (hexdigit (N.shiftr (Byte.to_N v) 4))
        (String (hexdigit (N.land (Byte.to_N v) 15)) (EncodeToString rest))
  end.

(** [sync.Map], used from one goroutine at a time. *)
Definition Map_Store (k : string) (v : loc) (m : gmap string loc) : gmap string loc :=
  <[k := v]> m.

Definition Map_Load (k : string) (m : gmap string loc) : option loc :=
  m !! k.

Definition Map_Delete (k : string) (m : gmap string loc) : gmap string loc :=
  delete k m.

(** [Range] walks the entries present when it starts, skips those deleted
    in the meantime, and stops when the callback answers [false].  The
    callback may change the map. *)
Fixpoint Range_loop (snapshot : list (string * loc))
    (f : string → loc → gmap string loc → gmap string loc * bool)
    (m : gmap string loc) : gmap string loc :=
  match snapshot with
  | [] => m
  | (k, _) :: rest =>
      match Map_Load k m with
      | None => Range_loop rest f m
      | Some v =>
          let '(m', continue) := f k v m in
          if continue then Range_loop rest f m' else m'
      end
  end.

Definition Map_Range (f : string → loc → gmap string loc → gmap string loc * bool)
    (m : gmap string loc) : gmap string loc :=
  Range_loop (map_to_list m) f m.

(** ** The package *)

Section Memstore.

(** The collaborators outside the package: the state of the outside
    world, [ioutil.ReadFile], and [math/rand.Read].  [rand_Read e n]
    stands for [rand.Read(p)] with [len(p) = n]: it yields the bytes the
    source has put into [p] and the error; the byte count it also
    returns is ignored by the package. *)
Context {Ext : Type}.
Variable ioutil_ReadFile : Ext → string → Ext * (list Byte.byte * option error).
Variable rand_Read : Ext → nat → Ext * (list Byte.byte * option error).

(** Everything the package can touch. *)
Record world : Type := World {
  cells : list memDataCell;
  files : list memFile;
  storage : memStorage;
  ext : Ext
}.

Definition set_cells (cs : list memDataCell) (w : world) : world :=
  World cs (files w) (storage w) (ext w).

Definition set_files (fs : list memFile) (w : world) : world :=
  World (cells w) fs (storage w) (ext w).

Definition set_storage (s : memStorage) (w : world) : world :=
  World (cells w) (files w) s (ext w).

Definition set_ext (e : Ext) (w : world) : world :=
  World (cells w) (files w) (storage w) e.

(** [func _efc(_efd int) (string, error)] *)
Definition _efc (_efd : nat) (e : Ext) : Ext * (string * option error) :=
  let _gfb := make _efd in
  let '(e', (drawn, _gd)) := rand_Read e (length _gfb) in
  match _gd with
  | Some err => (e', (EmptyString, Some err))
  | None => (e', (EncodeToString (copy _gfb drawn).1, None))
  end.

(** [func _eb(_eg string) string] *)
Definition _eb (_eg : string) (e : Ext) : Ext * string :=
  let '(e', (_bc, _)) := _efc 6 e in
  (e', _eg +:+ _bc).

(** [func (_da *memFile) Write(p []byte) (int, error)] *)
Definition Write (_da : loc) (p : list Byte.byte) (w : world)
    : option (world * (Z * option error)) :=
  f ← files w !! _da;
  c ← cells w !! _df f;
  content ← append (_fef c) p;
  let c1 := MemDataCell (_dfb c) content (_feg c) in
  let c2 := MemDataCell (_dfb c1) (_fef c1) (wrap64 (_feg c1 + Z.of_nat (length p))) in
  Some (set_cells (<[_df f := c2]> (cells w)) w, (Z.of_nat (length p), None)).

(** [func (_bf *memStorage) RemoveAll(dir string) error] *)
Definition RemoveAll (dir : string) (w : world) : world * option error :=
  let m := Map_Range (fun _bfd _gfd m => (Map_Delete _bfd m, true)) (_ac (storage w)) in
  (set_storage (MemStorage m) w, None).

(** [func (_a *memFile) Name() string] *)
Definition Name (_a : loc) (w : world) : option (world * string) :=
  f ← files w !! _a;
  c ← cells w !! _df f;
  Some (w, _dfb c).

(** [func (_eed *memStorage) TempDir(pattern string) (string, error)] *)
Definition TempDir (pattern : string) (w : world) : world * (string * option error) :=
  let '(e', name) := _eb pattern (ext w) in
  (set_ext e' w, (name, None)).

(** [func (_bg *memFile) Read(p []byte) (int, error)]; the first
    component of the result is the caller's buffer after the call. *)
Definition Read (_bg : loc) (p : list Byte.byte) (w : world)
    : option (world * (list Byte.byte * (Z * option error))) :=
  f ← files w !! _bg;
  c ← cells w !! _df f;
  let _ga := _gf f in
  let _fe := _feg c in
  let _cb := Z.of_nat (length p) in
  '(_cb, p1, beyond) ←
    (if bool_decide (_cb > _fe)
     then p1 ← slice p 0 _fe; Some (_fe, p1, drop (length p1) p)
     else Some (_cb, p, []));
  if bool_decide (_ga >= _fe) then Some (w, (p, (0, Some io_EOF)))
  else
    let _e := wrap64 (_ga + _cb) in
    let _e := if bool_decide (_e >= _fe) then _fe else _e in
    src ← slice (_fef c) _ga _e;
    let '(p1', _gfe) := copy p1 src in
    Some (set_files (<[_bg := MemFile (_df f) _e]> (files w)) w,
          (p1' ++ beyond, (_gfe, None))).

(** [func (_ef *memFile) Close() error] *)
Definition Close (_ef : loc) (w : world) : world * option error := (w, None).

(** [func (_fd *memStorage) Add(path string) error] *)
Definition Add (path : string) (w : world) : world * option error :=
  let '(e', (_ge, _agb)) := ioutil_ReadFile (ext w) path in
  match _agb with
  | Some err => (set_ext e' w, Some err)
  | None =>
      let fresh := length (cells w) in
      let cs := cells w ++ [MemDataCell path _ge 0] in
      (World cs (files w) (MemStorage (Map_Store path fresh (_ac (storage w)))) e', None)
  end.

(** [func (_cc *memStorage) TempFile(dir, pattern string) (File, error)] *)
Definition TempFile (dir pattern : string) (w : world)
    : world * (option loc * option error) :=
  let '(e', name) := _eb pattern (ext w) in
  let _gc := (dir +:+ "/") +:+ name in
  let _fege := length (cells w) in
  let cs := cells w ++ [MemDataCell _gc [] 0] in
  let _beg := length (files w) in
  let fs := files w ++ [MemFile _fege 0] in
  (World cs fs (MemStorage (Map_Store _gc _fege (_ac (storage w)))) e',
   (Some _beg, None)).

(** [func (_cd *memStorage) Open(path string) (File, error)] *)
Definition Open (path : string) (w : world) : world * (option loc * option error) :=
  match Map_Load path (_ac (storage w)) with
  | None => (w, (None, Some (errors_New ("Cannot open the file " +:+ path))))
  | Some _ee =>
      (set_files (files w ++ [MemFile _ee 0]) w, (Some (length (files w)), None))
  end.

(** [SetAsStorage] starts from [memStorage{_ac: sync.Map{}}]. *)
Definition init (e : Ext) : world := World [] [] (MemStorage ∅) e.

(** A sequential reader on top of [Read], in the manner of
    [io.ReadAll]: read into a buffer of [bufsize] bytes, keep the bytes
    received, stop at the first error and report [io.EOF] as success. *)
Fixpoint read_until_EOF (fuel : nat) (bufsize : nat) (h : loc)
    (acc : list Byte.byte) (w : world)
    : option (world * (list Byte.byte * option error)) :=
  match fuel with
  | O => None
  | S fuel' =>
      '(w', (p', (n, err))) ← Read h (make bufsize) w;
      let acc' := acc ++ take (Z.to_nat n) p' in
      match err with
      | Some io_EOF => Some (w', (acc', None))
      | Some err' => Some (w', (acc', Some err'))
      | None => read_until_EOF fuel' bufsize h acc' w'
      end
  end.

End Memstore.

Arguments world : clear implicits.
Arguments World {Ext} _ _ _ _.

(** ** Runs of the package *)

(** One call of a caller into the package. *)
Inductive call : Type :=
  | call_Add (path : string)
  | call_Open (path : string)
  | call_TempFile (dir pattern : string)
  | call_TempDir (pattern : string)
  | call_RemoveAll (dir : string)
  | call_Read (h : loc) (p : list Byte.byte)
  | call_Write (h : loc) (p : list Byte.byte)
  | call_Name (h : loc)
  | call_Close (h : loc).

(** The world after a call; [None] when the call panics. *)
Definition exec {Ext : Type}
    (ioutil_ReadFile : Ext → string → Ext * (list Byte.byte * option error))
    (rand_Read : Ext → nat → Ext * (list Byte.byte * option error))
    (k : call) (w : world Ext) : option (world Ext) :=
  match k with
  | call_Add path => Some (Add ioutil_ReadFile path w).1
  | call_Open path => Some (Open path w).1
  | call_TempFile dir pattern => Some (TempFile rand_Read dir pattern w).1
  | call_TempDir pattern => Some (TempDir rand_Read pattern w).1
  | call_RemoveAll dir => Some (RemoveAll dir w).1
  | call_Read h p => fst <$> Read h p w
  | call_Write h p => fst <$> Write h p w
  | call_Name h => fst <$> Name h w
  | call_Close h => Some (Close h w).1
  end.

(** The worlds a program can be in after [SetAsStorage] and any number of
    calls. *)
Inductive reachable {Ext : Type}
    (ioutil_ReadFile : Ext → string → Ext * (list Byte.byte * option error))
    (rand_Read : Ext → nat → Ext * (list Byte.byte * option error))
    : world Ext → Prop :=
  | reachable_init (e : Ext) : reachable ioutil_ReadFile rand_Read (init e)
  | reachable_step (w w' : world Ext) (k : call) :
      reachable ioutil_ReadFile rand_Read w →
      exec ioutil_ReadFile rand_Read k w = Some w' →
      reachable ioutil_ReadFile rand_Read w'.

(** ** Concrete collaborators, for running the model *)

(** A disk with one file, ["a.bin"], holding the byte [0x41]. *)
Definition disk_ReadFile (e : nat) (path : string) : nat * (list Byte.byte * option error) :=
  if bool_decide (path = "a.bin")
  then (e, ([x41], None))
  else (e, ([], Some (foreign_error ("open " +:+ path +:+ ": no such file or directory")))).

(** A random source that counts its calls and fills the buffer with
    [0xab]. *)
Definition steady_rand (e : nat) (n : nat) : nat * (list Byte.byte * option error) :=
  (S e, (replicate n xab, None)).

(** A world with one stored file of three bytes and one handle on it that
    has already read the first byte. *)
Definition sample_cell : memDataCell := MemDataCell "dir/f" [x01; x02; x03] 3.

Definition sample_world : world nat :=
  World [sample_cell] [MemFile 0%nat 1] (MemStorage {["dir/f" := 0%nat]}) 0%nat.

(** The same with the handle at the end of the file. *)
Definition drained_world : world nat :=
  World [sample_cell] [MemFile 0%nat 3] (MemStorage {["dir/f" := 0%nat]}) 0%nat.

(** The world after [TempFile("dir", "img")] on a fresh storage. *)
Definition tmp_world : world nat :=
  (TempFile steady_rand "dir" "img" (init 0%nat)).1.

(** One stored file with two handles on it: handle 0 has read all of it,
    handle 1 only the first byte. *)
Definition shared_world : world nat :=
  World [sample_cell] [MemFile 0%nat 3; MemFile 0%nat 1]
    (MemStorage {["dir/f" := 0%nat]}) 0%nat.

(** ** Well-formedness of heap objects *)

(** What every cell and handle built by the package satisfies; see
    [reachable_ok] below. *)
Definition cell_ok (c : memDataCell) : Prop :=
  0 ≤ _feg c ≤ Z.of_nat (length (_fef c)) ∧ Z.of_nat (length (_fef c)) ≤ MaxInt64.

(** The cell's content and the buffer [p] are both Go slices, so their
    lengths add up within the range of [int]. *)
Definition fits (c : memDataCell) (p : list Byte.byte) : Prop :=
  Z.of_nat (length (_fef c)) + Z.of_nat (length p) ≤ MaxInt64.

(** The caller's buffer [p] after a [Read] that delivers [n] bytes of the
    cell from offset [off] on. *)
Definition delivered (c : memDataCell) (off n : Z) (p : list Byte.byte) : list Byte.byte :=
  take (Z.to_nat n) (drop (Z.to_nat off) (_fef c)) ++ drop (Z.to_nat n) p.

Definition world_ok {Ext : Type} (w : world Ext) : Prop :=
  (∀ a c, cells w !! a = Some c → cell_ok c) ∧
  (∀ h f, files w !! h = Some f →
     ∃ c, cells w !! _df f = Some c ∧ 0 ≤ _gf f ≤ _feg c) ∧
  (∀ k a, _ac (storage w) !! k = Some a → is_Some (cells w !! a)).

(** ** Clients and further invariants *)

(** A sequential writer on top of [Write], in the manner of [io.Copy]: one
    [Write] per chunk, in order; a panic of [Write] ends it. *)
Fixpoint write_chunks {Ext : Type} (h : loc) (chunks : list (list Byte.byte))
    (w : world Ext) : option (world Ext) :=
  match chunks with
  | [] => Some w
  | p :: rest => '(w', _) ← Write h p w; write_chunks h rest w'
  end.

(** Every key of the storage map leads to a cell that carries the key as
    its name. *)
Definition keys_ok {Ext : Type} (w : world Ext) : Prop :=
  ∀ k a, _ac (storage w) !! k = Some a → ∃ c, cells w !! a = Some c ∧ _dfb c = k.

(** [c'] is [c] after more bytes were appended to it. *)
Definition extends (c c' : memDataCell) : Prop :=
  _dfb c' = _dfb c ∧ _fef c `prefix_of` _fef c' ∧ _feg c ≤ _feg c'.

(** ** Runs of text (package document, run.go) *)

Module document.

Section Run.

(** The schema package [wml] is outside this file.  For each of its types
    the records below list the fields that run.go reads or writes and keep
    the rest of the struct in one component of type [Other]; the types
    run.go only passes around ([CT_Empty], [CT_Br], [CT_OnOff]) are [Other]
    as well.  The constructors [wml.NewXxx] return a pointer to a new
    object; the value of that object is a parameter.  A pointer that may
    be nil is an [option], a panic is [None]. *)
Context {Other : Type}.

Record wml_CT_Text : Type := Mk_CT_Text {
  Content : string;
  CT_Text_rest : Other
}.

Record wml_EG_RunInnerContent : Type := Mk_EG_RunInnerContent {
  T : option wml_CT_Text;
  Tab : option Other;
  Br : option Other;
  EG_RunInnerContent_rest : Other
}.

Record wml_EG_RPrBase : Type := Mk_EG_RPrBase {
  B : option Other;
  BCs : option Other;
  I : option Other;
  ICs : option Other;
  EG_RPrBase_rest : Other
}.

Record wml_CT_RPr : Type := Mk_CT_RPr {
  EG_RPrBase : list (option wml_EG_RPrBase);
  CT_RPr_rest : Other
}.

Record wml_CT_R : Type := Mk_CT_R {
  EG_RunInnerContent : list (option wml_EG_RunInnerContent);
  RPr : option wml_CT_RPr;
  CT_R_rest : Other
}.

Variable NewCT_Text : wml_CT_Text.
Variable NewCT_Empty : Other.
Variable NewCT_Br : Other.
Variable NewCT_OnOff : Other.
Variable NewEG_RunInnerContent : wml_EG_RunInnerContent.
Variable NewCT_RPr : wml_CT_RPr.
Variable NewEG_RPrBase : wml_EG_RPrBase.

(** A [Run] is a pair of pointers [{d, x}] passed by value; its methods
    work on the [CT_R] that [r.x] points to, which is the state here. *)

(** Assignment through a pointer [ic] into the slice of inner contents. *)
Definition update_ic (ic : nat) (g : wml_EG_RunInnerContent → wml_EG_RunInnerContent)
    (x : wml_CT_R) : wml_CT_R :=
  Mk_CT_R (alter (fmap g) ic (EG_RunInnerContent x)) (RPr x) (CT_R_rest x).

(** The loop of [Text]: [buf] is the [bytes.Buffer]. *)
Fixpoint Text_range (ics : list (option wml_EG_RunInnerContent)) (buf : string)
    : option string :=
  match ics with
  | [] => Some buf
  | None :: _ => None
  | Some ic :: rest =>
      let buf := match T ic with Some t => buf +:+ Content t | None => buf end in
      let buf :=
        match Tab ic with
        | Some _ => buf +:+ String "009"%char EmptyString
        | None => buf
        end in
      Text_range rest buf
  end.

(** [func (r Run) Text() string] *)
Definition Text (x : wml_CT_R) : option string :=
  if decide (length (EG_RunInnerContent x) = 0%nat) then Some EmptyString
  else Text_range (EG_RunInnerContent x) EmptyString.

(** [func (r Run) AddText(s string)] *)
Definition AddText (s : string) (x : wml_CT_R) : wml_CT_R :=
  let ic := length (EG_RunInnerContent x) in
  let x := Mk_CT_R (EG_RunInnerContent x ++ [Some NewEG_RunInnerContent]) (RPr x)
             (CT_R_rest x) in
  let x := update_ic ic
             (λ c, Mk_EG_RunInnerContent (Some NewCT_Text) (Tab c) (Br c)
                     (EG_RunInnerContent_rest c)) x in
  update_ic ic
    (λ c, Mk_EG_RunInnerContent
            ((λ t, Mk_CT_Text s (CT_Text_rest t)) <$> T c) (Tab c) (Br c)
            (EG_RunInnerContent_rest c)) x.

(** [func (r Run) newIC() *wml.EG_RunInnerContent] *)
Definition newIC (x : wml_CT_R) : wml_CT_R * nat :=
  (Mk_CT_R (EG_RunInnerContent x ++ [Some NewEG_RunInnerContent]) (RPr x) (CT_R_rest x),
   length (EG_RunInnerContent x)).

(** [func (r Run) AddTab()] *)
Definition AddTab (x : wml_CT_R) : wml_CT_R :=
  let '(x, ic) := newIC x in
  update_ic ic
    (λ c, Mk_EG_RunInnerContent (T c) (Some NewCT_Empty) (Br c)
            (EG_RunInnerContent_rest c)) x.

(** [func (r Run) AddBreak()] *)
Definition AddBreak (x : wml_CT_R) : wml_CT_R :=
  let '(x, ic) := newIC x in
  update_ic ic
    (λ c, Mk_EG_RunInnerContent (T c) (Tab c) (Some NewCT_Br)
            (EG_RunInnerContent_rest c)) x.

(** [func (r Run) ensureRPR()] *)
Definition ensureRPR (x : wml_CT_R) : wml_CT_R :=
  match RPr x with
  | Some _ => x
  | None =>
      let rpr := NewCT_RPr in
      let b := NewEG_RPrBase in
      Mk_CT_R (EG_RunInnerContent x)
        (Some (Mk_CT_RPr (EG_RPrBase rpr ++ [Some b]) (CT_RPr_rest rpr)))
        (CT_R_rest x)
  end.

(** Assignment to a field of [r.x.RPr.EG_RPrBase[0]]: nil pointer and
    index out of range panic.  The slice holds pointers; the list holds
    the objects they point to, one per slot, so the assignment reaches
    slot 0 only.  In Go a later slot that holds the same pointer as slot 0
    sees the assignment too. *)
Definition update_base0 (g : wml_EG_RPrBase → wml_EG_RPrBase) (x : wml_CT_R)
    : option wml_CT_R :=
  rpr ← RPr x;
  slot ← EG_RPrBase rpr !! 0%nat;
  b ← slot;
  Some (Mk_CT_R (EG_RunInnerContent x)
          (Some (Mk_CT_RPr (<[0%nat := Some (g b)]> (EG_RPrBase rpr)) (CT_RPr_rest rpr)))
          (CT_R_rest x)).

Fixpoint IsBold_range (bs : list (option wml_EG_RPrBase)) : option bool :=
  match bs with
  | [] => Some false
  | None :: _ => None
  | Some b :: rest =>
      match B b with Some _ => Some true | None => IsBold_range rest end
  end.

(** [func (r Run) IsBold() bool] *)
Definition IsBold (x : wml_CT_R) : option bool :=
  match RPr x with
  | None => Some false
  | Some rpr => IsBold_range (EG_RPrBase rpr)
  end.

(** [func (r Run) SetBold(b bool)] *)
Definition SetBold (b : bool) (x : wml_CT_R) : option wml_CT_R :=
  let x := ensureRPR x in
  if negb b then
    x ← update_base0 (λ e, Mk_EG_RPrBase None (BCs e) (I e) (ICs e) (EG_RPrBase_rest e)) x;
    update_base0 (λ e, Mk_EG_RPrBase (B e) None (I e) (ICs e) (EG_RPrBase_rest e)) x
  else
    x ← update_base0
          (λ e, Mk_EG_RPrBase (Some NewCT_OnOff) (BCs e) (I e) (ICs e) (EG_RPrBase_rest e)) x;
    update_base0
      (λ e, Mk_EG_RPrBase (B e) (Some NewCT_OnOff) (I e) (ICs e) (EG_RPrBase_rest e)) x.

Fixpoint IsItalic_range (bs : list (option wml_EG_RPrBase)) : option bool :=
  match bs with
  | [] => Some false
  | None :: _ => None
  | Some b :: rest =>
      match I b with Some _ => Some true | None => IsItalic_range rest end
  end.

(** [func (r Run) IsItalic() bool] *)
Definition IsItalic (x : wml_CT_R) : option bool :=
  match RPr x with
  | None => Some false
  | Some rpr => IsItalic_range (EG_RPrBase rpr)
  end.

(** [func (r Run) SetItalic(b bool)] *)
Definition SetItalic (b : bool) (x : wml_CT_R) : option wml_CT_R :=
  let x := ensureRPR x in
  if negb b then
    x ← update_base0 (λ e, Mk_EG_RPrBase (B e) (BCs e) None (ICs e) (EG_RPrBase_rest e)) x;
    update_base0 (λ e, Mk_EG_RPrBase (B e) (BCs e) (I e) None (EG_RPrBase_rest e)) x
  else
    x ← update_base0
          (λ e, Mk_EG_RPrBase (B e) (BCs e) (Some NewCT_OnOff) (ICs e) (EG_RPrBase_rest e)) x;
    update_base0
      (λ e, Mk_EG_RPrBase (B e) (BCs e) (I e) (Some NewCT_OnOff) (EG_RPrBase_rest e)) x.

End Run.

Arguments wml_CT_Text : clear implicits.
Arguments wml_EG_RunInnerContent : clear implicits.
Arguments wml_EG_RPrBase : clear implicits.
Arguments wml_CT_RPr : clear implicits.
Arguments wml_CT_R : clear implicits.

End document.

(** Concrete runs: the constructors of [wml] return empty objects, and
    [Other] holds nothing. *)
Definition blank_text : document.wml_CT_Text unit := document.Mk_CT_Text EmptyString tt.

Definition blank_ic : document.wml_EG_RunInnerContent unit :=
  document.Mk_EG_RunInnerContent None None None tt.

Definition blank_rpr : document.wml_CT_RPr unit := document.Mk_CT_RPr [] tt.

Definition blank_base : document.wml_EG_RPrBase unit :=
  document.Mk_EG_RPrBase None None None None tt.

(** A run without content and without properties. *)
Definition empty_run : document.wml_CT_R unit := document.Mk_CT_R [] None tt.

(** A run whose properties have two groups, both bold. *)
Definition two_group_run : document.wml_CT_R unit :=
  document.Mk_CT_R []
    (Some (document.Mk_CT_RPr
             [Some (document.Mk_EG_RPrBase (Some tt) (Some tt) None None tt);
              Some (document.Mk_EG_RPrBase (Some tt) None None None tt)] tt))
    tt.

(** A run whose properties exist and hold no group. *)
Definition hollow_run : document.wml_CT_R unit :=
  document.Mk_CT_R [] (Some blank_rpr) tt.

(** Arithmetic side conditions on concrete data. *)
Ltac in_range := unfold cell_ok, fits, MaxInt64; cbn; lia.

(** ** Basic facts about the built-ins *)

Lemma wrap64_id (z : Z) : MinInt64 ≤ z ≤ MaxInt64 → wrap64 z = z.
Proof.
  unfold wrap64, MinInt64, MaxInt64. intros Hz.
  rewrite Z.mod_small; lia.
Qed.

Lemma wrap64_range (z : Z) : MinInt64 ≤ wrap64 z ≤ MaxInt64.
Proof.
  unfold wrap64, MinInt64, MaxInt64.
  pose proof (Z.mod_pos_bound (z + 2 ^ 63) (2 ^ 64)). lia.
Qed.

Lemma slice_Some (s : list Byte.byte) (lo hi : Z) :
  0 ≤ lo → lo ≤ hi → hi ≤ Z.of_nat (length s) →
  slice s lo hi = Some (take (Z.to_nat (hi - lo)) (drop (Z.to_nat lo) s)).
Proof. intros. unfold slice. rewrite bool_decide_eq_true_2; auto. Qed.

Lemma slice_bounds (s r : list Byte.byte) (lo hi : Z) :
  slice s lo hi = Some r → 0 ≤ lo ∧ lo ≤ hi ∧ hi ≤ Z.of_nat (length s).
Proof. unfold slice. case_bool_decide; [auto | discriminate]. Qed.

Lemma append_Some (s p : list Byte.byte) :
  Z.of_nat (length s) + Z.of_nat (length p) ≤ MaxInt64 → append s p = Some (s ++ p).
Proof. intros. unfold append. rewrite bool_decide_eq_true_2; auto. Qed.

Lemma append_inv (s p r : list Byte.byte) :
  append s p = Some r →
  r = s ++ p ∧ Z.of_nat (length s) + Z.of_nat (length p) ≤ MaxInt64.
Proof. unfold append. case_bool_decide; [| discriminate]. intros [= <-]. auto. Qed.

Lemma copy_length (dst src : list Byte.byte) : length (copy dst src).1 = length dst.
Proof.
  unfold copy. simpl. rewrite length_app, length_take, length_drop. lia.
Qed.

Lemma EncodeToString_length (src : list Byte.byte) :
  String.length (EncodeToString src) = (2 * length src)%nat.
Proof. induction src as [| v rest IH]; simpl; [reflexivity | rewrite IH; lia]. Qed.

Lemma append_empty_r (s : string) : s +:+ EmptyString = s.
Proof.
  induction s as [| a s IH]; [reflexivity |].
  change (String a s +:+ EmptyString) with (String a (s +:+ EmptyString)).
  by rewrite IH.
Qed.

(** A [Range] whose callback deletes the key it is given leaves exactly the
    keys that were not in the snapshot. *)
Lemma Range_loop_delete (snapshot : list (string * loc)) (m : gmap string loc) (k : string) :
  Range_loop snapshot (λ key _ m', (Map_Delete key m', true)) m !! k =
  if decide (k ∈ snapshot.*1) then None else m !! k.
Proof.
  revert m. induction snapshot as [| [key v] rest IH]; intros m.
  - done.
  - cbn [Range_loop]. rewrite fmap_cons. cbn [fst].
    unfold Map_Load, Map_Delete.
    destruct (decide (k = key)) as [-> | Hne].
    + rewrite (decide_True (P := key ∈ key :: rest.*1)); [| by left].
      destruct (m !! key) as [v' |] eqn:Hkey; rewrite IH.
      * case_decide; [done | by rewrite lookup_delete_eq].
      * by case_decide.
    + assert (k ∈ key :: rest.*1 ↔ k ∈ rest.*1) as Hiff.
      { rewrite elem_of_cons. split; [by intros [? | ?] | by right]. }
      destruct (m !! key) as [v' |] eqn:Hkey; rewrite IH.
      * rewrite lookup_delete_ne; [| done].
        repeat case_decide; tauto || done.
      * repeat case_decide; tauto || done.
Qed.

Lemma Map_Range_delete_all (m : gmap string loc) :
  Map_Range (λ key _ m', (Map_Delete key m', true)) m = ∅.
Proof.
  apply map_eq. intros k. unfold Map_Range.
  rewrite Range_loop_delete, lookup_empty.
  case_decide as Hk; [done |].
  destruct (m !! k) as [a |] eqn:Hm; [| done].
  exfalso. apply Hk. apply list_elem_of_fmap.
  exists (k, a). split; [done |]. by apply elem_of_map_to_list.
Qed.

(** ** The storage operations *)

Section Storage.

Context {Ext : Type}.
Variable ioutil_ReadFile : Ext → string → Ext * (list Byte.byte * option error).
Variable rand_Read : Ext → nat → Ext * (list Byte.byte * option error).

Implicit Types (w : world Ext) (h a : loc) (p : list Byte.byte).

(** [RemoveAll] in closed form. *)
Lemma RemoveAll_eq w (dir : string) :
  RemoveAll dir w = (set_storage (MemStorage ∅) w, None).
Proof. unfold RemoveAll. by rewrite Map_Range_delete_all. Qed.

(** C7. [RemoveAll] empties the storage map whatever its argument is,
    touches nothing else, and returns no error. *)
Theorem RemoveAll_clears_everything w (dir : string) :
  RemoveAll dir w = (set_storage (MemStorage ∅) w, None) ∧
  (∀ k : string, _ac (storage (RemoveAll dir w).1) !! k = None) ∧
  map_to_list (_ac (storage (RemoveAll dir w).1)) = [].
Proof.
  rewrite RemoveAll_eq. split; [done |]. split.
  - intros k. apply lookup_empty.
  - apply map_to_list_empty.
Qed.

(** C5. [Open] of a path that is not in the storage returns no handle and
    an error whose message ends with the path, and changes nothing;
    [Open] of a path that is there returns, with no error, a new handle
    on the stored cell, with offset 0. *)
Theorem Open_spec w (path : string) :
  (_ac (storage w) !! path = None →
     Open path w = (w, (None, Some (errors_New ("Cannot open the file " +:+ path))))) ∧
  (∀ a, _ac (storage w) !! path = Some a →
     Open path w = (set_files (files w ++ [MemFile a 0]) w, (Some (length (files w)), None)) ∧
     files (Open path w).1 !! length (files w) = Some (MemFile a 0) ∧
     files w !! length (files w) = None).
Proof.
  unfold Open, Map_Load. split.
  - by intros ->.
  - intros a ->. split; [done |]. split.
    + cbn. by rewrite lookup_app_r, Nat.sub_diag.
    + by apply lookup_ge_None.
Qed.

(** The cell [Add] builds has its size field left at zero. *)
Lemma Add_cell w (path : string) (e' : Ext) (data : list Byte.byte) :
  ioutil_ReadFile (ext w) path = (e', (data, None)) →
  cells (Add ioutil_ReadFile path w).1 !! length (cells w)
    = Some (MemDataCell path data 0).
Proof.
  intros HR. unfold Add. rewrite HR. cbn.
  by rewrite lookup_app_r, Nat.sub_diag.
Qed.

(** C6. When the file cannot be read, [Add] hands back the error of
    [ioutil.ReadFile] as it is and leaves cells, handles and storage map
    as they were.  When it can, [Add] returns no error and stores under
    the path, as given, a new cell named by the path and holding the
    bytes read; whatever was stored under that path before is replaced,
    and the other keys keep their cells. *)
Theorem Add_spec w (path : string) (e' : Ext) (data : list Byte.byte) :
  (∀ err, ioutil_ReadFile (ext w) path = (e', (data, Some err)) →
     Add ioutil_ReadFile path w = (set_ext e' w, Some err) ∧
     cells (Add ioutil_ReadFile path w).1 = cells w ∧
     files (Add ioutil_ReadFile path w).1 = files w ∧
     storage (Add ioutil_ReadFile path w).1 = storage w) ∧
  (ioutil_ReadFile (ext w) path = (e', (data, None)) →
     let w' := (Add ioutil_ReadFile path w).1 in
     (Add ioutil_ReadFile path w).2 = None ∧
     (∃ c, _ac (storage w') !! path = Some (length (cells w)) ∧
           cells w' !! length (cells w) = Some c ∧
           cells w !! length (cells w) = None ∧
           _dfb c = path ∧ _fef c = data) ∧
     (∀ k, k ≠ path → _ac (storage w') !! k = _ac (storage w) !! k) ∧
     (∀ b c, cells w !! b = Some c → cells w' !! b = Some c) ∧
     files w' = files w).
Proof.
  unfold Add. split.
  - by intros err ->.
  - intros ->. cbn. split; [done |]. split; [| split; [| split; [| done]]].
    + exists (MemDataCell path data 0). unfold Map_Store.
      rewrite lookup_insert_eq, lookup_app_r, Nat.sub_diag by done.
      repeat split; try done. by apply lookup_ge_None.
    + intros k Hk. unfold Map_Store. by rewrite lookup_insert_ne.
    + intros b c Hb. by apply lookup_app_l_Some.
Qed.

End Storage.

(** ** The handle operations *)

Section Handle.

Context {Ext : Type}.

Implicit Types (w : world Ext) (h a : loc) (f : memFile) (c : memDataCell)
  (p : list Byte.byte).

(** [Write] in closed form. *)
Lemma Write_eq w h f c p :
  files w !! h = Some f → cells w !! _df f = Some c →
  cell_ok c → fits c p →
  Write h p w =
    Some (set_cells
            (<[_df f := MemDataCell (_dfb c) (_fef c ++ p) (_feg c + Z.of_nat (length p))]>
               (cells w)) w,
          (Z.of_nat (length p), None)).
Proof.
  intros Hf Hc [Hsz Hlen] Hfits. unfold Write, fits in *.
  rewrite Hf. cbn. rewrite Hc. cbn.
  rewrite append_Some by done. cbn.
  rewrite wrap64_id; [done |]. unfold MinInt64, MaxInt64 in *. lia.
Qed.

(** What [Write] can change, whenever it returns. *)
Lemma Write_inv w h p w' r :
  Write h p w = Some (w', r) →
  ∃ f c, files w !! h = Some f ∧ cells w !! _df f = Some c ∧ fits c p ∧
    r = (Z.of_nat (length p), None) ∧
    w' = set_cells
           (<[_df f := MemDataCell (_dfb c) (_fef c ++ p)
                         (wrap64 (_feg c + Z.of_nat (length p)))]> (cells w)) w.
Proof.
  unfold Write. intros H.
  destruct (files w !! h) as [f |] eqn:Hf; [| discriminate]. cbn in H.
  destruct (cells w !! _df f) as [c |] eqn:Hc; [| discriminate]. cbn in H.
  destruct (append (_fef c) p) as [content |] eqn:Happ; [| discriminate].
  apply append_inv in Happ as [-> Hfits]. cbn in H.
  injection H as <- <-. exists f, c. by repeat split.
Qed.

(** [Read] in closed form. *)
Lemma Read_eq w h f c p :
  files w !! h = Some f → cells w !! _df f = Some c →
  0 ≤ _gf f → cell_ok c → fits c p →
  Read h p w =
    if bool_decide (_gf f >= _feg c) then Some (w, (p, (0, Some io_EOF)))
    else
      let n := Z.min (Z.of_nat (length p)) (_feg c - _gf f) in
      Some (set_files (<[h := MemFile (_df f) (_gf f + n)]> (files w)) w,
            (delivered c (_gf f) n p, (n, None))).
Proof.
  intros Hf Hc Hoff [Hsz Hlen] Hfits. unfold Read, fits, delivered in *.
  rewrite Hf. cbn. rewrite Hc. cbn.
  set (lp := Z.of_nat (length p)) in *.
  set (off := _gf f) in *. set (sz := _feg c) in *.
  (* the buffer after [p = p[:_cb]] *)
  assert (∃ cb p1 beyond,
            (if bool_decide (lp > sz)
             then p1 ← slice p 0 sz; Some (sz, p1, drop (length p1) p)
             else Some (lp, p, [])) = Some (cb, p1, beyond) ∧
            cb = Z.min lp sz ∧ p1 = take (Z.to_nat cb) p ∧
            p1 ++ beyond = p) as (cb & p1 & beyond & -> & Hcb & Hp1 & Hsplit).
  { case_bool_decide as Hcmp.
    - rewrite slice_Some by (subst lp; lia). cbn.
      rewrite Z.sub_0_r, drop_0.
      eexists _, _, _. split; [reflexivity |].
      split; [lia |]. split; [done |].
      rewrite length_take, Nat.min_l by (subst lp; lia).
      apply take_drop.
    - exists lp, p, []. split; [done |]. split; [lia |].
      split; [| apply app_nil_r].
      subst lp. by rewrite Nat2Z.id, firstn_all. }
  cbn. case_bool_decide as Heof; [done |].
  set (n := Z.min lp (sz - off)).
  assert (wrap64 (off + cb) = off + cb) as ->.
  { apply wrap64_id. unfold MinInt64, MaxInt64 in *. subst lp. lia. }
  assert ((if bool_decide (off + cb >= sz) then sz else off + cb) = off + n) as ->.
  { case_bool_decide; subst n; lia. }
  assert (0 ≤ n ∧ n ≤ cb ∧ off + n ≤ sz) as (Hn0 & Hncb & Hnsz) by (subst n lp; lia).
  rewrite slice_Some by lia. cbn.
  replace (off + n - off) with n by lia.
  set (src := take (Z.to_nat n) (drop (Z.to_nat off) (_fef c))).
  assert (length src = Z.to_nat n) as Hsrc.
  { subst src. rewrite length_take, length_drop. lia. }
  assert (length p1 = Z.to_nat cb) as Hlp1.
  { rewrite Hp1, length_take. subst lp. lia. }
  unfold copy. rewrite Hsrc, Hlp1, Nat.min_r by lia.
  do 3 f_equal.
  - rewrite firstn_all2 by lia. rewrite <- app_assoc. f_equal.
    rewrite <- Hsplit. by rewrite drop_app_le by lia.
  - f_equal. lia.
Qed.

(** [Name] in closed form. *)
Lemma Name_eq w h f c :
  files w !! h = Some f → cells w !! _df f = Some c → Name h w = Some (w, _dfb c).
Proof. intros Hf Hc. unfold Name. rewrite Hf. cbn. by rewrite Hc. Qed.

(** What [Read] can change, whenever it returns: the offset of its own
    handle and nothing else; the offset does not move backwards and does
    not pass the size. *)
Lemma Read_inv w h p w' r :
  Read h p w = Some (w', r) →
  ∃ f c off, files w !! h = Some f ∧ cells w !! _df f = Some c ∧
    _gf f ≤ off ≤ Z.max (_gf f) (_feg c) ∧
    w' = set_files (<[h := MemFile (_df f) off]> (files w)) w.
Proof.
  unfold Read. intros H.
  destruct (files w !! h) as [f |] eqn:Hf; [| discriminate]. cbn in H.
  destruct (cells w !! _df f) as [c |] eqn:Hc; [| discriminate]. cbn in H.
  exists f, c.
  match type of H with
  | context [mbind _ ?m] => destruct m as [[[cb p1] beyond] |]; [| discriminate]
  end.
  cbn in H. case_bool_decide.
  - injection H as <- <-. exists (_gf f). split; [done |]. split; [done |].
    split; [lia |].
    destruct f, w. unfold set_files. cbn in *. by rewrite list_insert_id.
  - match type of H with
    | context [slice ?s ?lo ?hi] =>
        destruct (slice s lo hi) as [src |] eqn:Hsrc; [| discriminate]
    end.
    apply slice_bounds in Hsrc as (_ & Hlo & _).
    cbn in H. injection H as <- <-. eexists.
    split; [done |]. split; [done |]. split; [| done].
    case_bool_decide; lia.
Qed.

(** C3. With [remaining = size - offset]: when [remaining <= 0], [Read]
    leaves the buffer and the handle as they are and returns 0 and the
    sentinel [io.EOF]; otherwise it returns [n = min(len(p), remaining)]
    and no error, the first [n] bytes of the buffer are the [n] bytes of
    the content from the offset on, the rest of the buffer is untouched,
    and the offset has moved by [n].  With an empty buffer and
    [remaining > 0] the result is 0 bytes, no error, nothing changed. *)
Theorem Read_spec w h f c p :
  files w !! h = Some f → cells w !! _df f = Some c →
  0 ≤ _gf f → cell_ok c → fits c p →
  let remaining := _feg c - _gf f in
  (remaining ≤ 0 → Read h p w = Some (w, (p, (0, Some io_EOF)))) ∧
  (0 < remaining →
     let n := Z.min (Z.of_nat (length p)) remaining in
     let bytes := take (Z.to_nat n) (drop (Z.to_nat (_gf f)) (_fef c)) in
     Read h p w =
       Some (set_files (<[h := MemFile (_df f) (_gf f + n)]> (files w)) w,
             (bytes ++ drop (Z.to_nat n) p, (n, None))) ∧
     Z.of_nat (length bytes) = n) ∧
  (0 < remaining → p = [] → Read h p w = Some (w, ([], (0, None)))).
Proof.
  intros Hf Hc Hoff Hok Hfits remaining.
  pose proof (Read_eq w h f c p Hf Hc Hoff Hok Hfits) as Heq.
  destruct Hok as [Hsz Hlen]. subst remaining. split; [| split].
  - intros Hrem. rewrite Heq, bool_decide_eq_true_2 by lia. done.
  - intros Hrem n bytes. rewrite Heq, bool_decide_eq_false_2 by lia.
    split; [done |].
    subst bytes. rewrite length_take, length_drop. subst n. lia.
  - intros Hrem ->. rewrite Heq, bool_decide_eq_false_2 by lia.
    cbn. rewrite Z.min_l, Z.add_0_r by lia.
    destruct f, w. unfold set_files, delivered. cbn in *.
    by rewrite list_insert_id.
Qed.

(** C4. [Write] puts the whole buffer behind the content, adds its length
    to the size and returns that length and no error.  The offset plays
    no part: any handle on the same cell gives the same result.  A second
    [Write] goes behind the first, and writing nothing changes nothing. *)
Theorem Write_appends w h f c (A B : list Byte.byte) :
  files w !! h = Some f → cells w !! _df f = Some c →
  cell_ok c →
  Z.of_nat (length (_fef c)) + Z.of_nat (length A) + Z.of_nat (length B) ≤ MaxInt64 →
  let c1 := MemDataCell (_dfb c) (_fef c ++ A) (_feg c + Z.of_nat (length A)) in
  let w1 := set_cells (<[_df f := c1]> (cells w)) w in
  let c2 := MemDataCell (_dfb c) (_fef c ++ A ++ B)
              (_feg c + Z.of_nat (length A) + Z.of_nat (length B)) in
  Write h A w = Some (w1, (Z.of_nat (length A), None)) ∧
  cells w1 !! _df f = Some c1 ∧
  (∀ h2 f2, files w !! h2 = Some f2 → _df f2 = _df f → Write h2 A w = Write h A w) ∧
  (∃ w2, Write h B w1 = Some (w2, (Z.of_nat (length B), None)) ∧
         cells w2 !! _df f = Some c2) ∧
  Write h [] w = Some (w, (0, None)).
Proof.
  intros Hf Hc Hok Hlen c1 w1 c2.
  assert (_df f < length (cells w))%nat as Hlt by by eapply lookup_lt_Some.
  assert (fits c A) as HfA by (unfold fits; lia).
  assert (cells w1 !! _df f = Some c1) as Hc1.
  { subst w1. cbn. by apply list_lookup_insert_eq. }
  split; [by apply Write_eq |]. split; [done |]. split; [| split].
  - intros h2 f2 Hf2 Hsame.
    rewrite (Write_eq w h f c A), (Write_eq w h2 f2 c A); try done.
    + by rewrite Hsame.
    + by rewrite Hsame.
  - assert (cell_ok c1) as Hok1.
    { destruct Hok as [Hsz Hl]. subst c1. unfold cell_ok. cbn.
      rewrite length_app. lia. }
    assert (fits c1 B) as HfB.
    { subst c1. unfold fits. cbn. rewrite length_app. lia. }
    eexists. split.
    + by apply (Write_eq w1 h f c1 B).
    + cbn. rewrite list_lookup_insert_eq by by rewrite length_insert.
      subst c1 c2. cbn. by rewrite <- app_assoc.
  - rewrite (Write_eq w h f c []); try done.
    + cbn. rewrite app_nil_r, Z.add_0_r.
      destruct c, w. unfold set_cells. cbn in *. by rewrite list_insert_id.
    + unfold fits. destruct Hok. cbn. lia.
Qed.

(** C10. [Open], [Name], [Close] and [Read] leave the storage map and
    every cell as they were.  [Name] and [Close] give back the world they
    were given.  [Read] changes at most the offset of the handle it is
    called on; [Open] only adds its new handle. *)
Theorem readers_frame w h f c p (path : string) :
  files w !! h = Some f → cells w !! _df f = Some c →
  0 ≤ _gf f → cell_ok c → fits c p →
  (cells (Open path w).1 = cells w ∧ storage (Open path w).1 = storage w ∧
   ∀ h' f', files w !! h' = Some f' → files (Open path w).1 !! h' = Some f') ∧
  Name h w = Some (w, _dfb c) ∧
  Close h w = (w, None) ∧
  ∃ w' r, Read h p w = Some (w', r) ∧
    cells w' = cells w ∧ storage w' = storage w ∧
    (∀ h', h' ≠ h → files w' !! h' = files w !! h') ∧
    (∃ off, files w' !! h = Some (MemFile (_df f) off)).
Proof.
  intros Hf Hc Hoff Hok Hfits.
  assert (h < length (files w))%nat as Hlt by by eapply lookup_lt_Some.
  split; [| split; [| split]].
  - unfold Open. destruct (Map_Load path (_ac (storage w))); cbn.
    + repeat split. intros h' f' Hh'. by apply lookup_app_l_Some.
    + done.
  - by apply (Name_eq w h f c).
  - done.
  - destruct (Read h p w) as [[w' r] |] eqn:HR.
    + destruct (Read_inv _ _ _ _ _ HR) as (f0 & c0 & off & Hf0 & _ & _ & ->).
      assert (f0 = f) as -> by congruence.
      eexists _, r. split; [reflexivity |]. cbn. repeat split.
      * intros h' Hne. by rewrite list_lookup_insert_ne.
      * exists off. by apply list_lookup_insert_eq.
    + rewrite (Read_eq w h f c p) in HR by done. by case_bool_decide.
Qed.

End Handle.

(** ** Temporary files: names and round trip *)

Section TempFiles.

Context {Ext : Type}.
Variable rand_Read : Ext → nat → Ext * (list Byte.byte * option error).

Implicit Types (w : world Ext) (h a : loc) (c : memDataCell).

(** [TempFile] in terms of the name generator. *)
Lemma TempFile_eq w (dir pattern : string) :
  TempFile rand_Read dir pattern w =
    let gen := _eb rand_Read pattern (ext w) in
    let name := (dir +:+ "/") +:+ gen.2 in
    (World (cells w ++ [MemDataCell name [] 0])
           (files w ++ [MemFile (length (cells w)) 0])
           (MemStorage (<[name := length (cells w)]> (_ac (storage w))))
           gen.1,
     (Some (length (files w)), None)).
Proof. unfold TempFile, Map_Store. by destruct (_eb rand_Read pattern (ext w)). Qed.

(** The reader loop collects everything between the offset and the
    size, provided it may run once per byte and once more for the end. *)
Lemma read_until_EOF_rest (fuel bufsize : nat) w h a (off : Z) c
    (acc : list Byte.byte) :
  files w !! h = Some (MemFile a off) → cells w !! a = Some c →
  cell_ok c → 0 ≤ off ≤ _feg c →
  Z.of_nat (length (_fef c)) + Z.of_nat bufsize ≤ MaxInt64 →
  (0 < bufsize)%nat → (Z.to_nat (_feg c - off) < fuel)%nat →
  read_until_EOF fuel bufsize h acc w =
    Some (set_files (<[h := MemFile a (_feg c)]> (files w)) w,
          (acc ++ take (Z.to_nat (_feg c - off)) (drop (Z.to_nat off) (_fef c)), None)).
Proof.
  revert w off acc.
  induction fuel as [| fuel IH]; intros w off acc Hf Hc Hok Hoff Hbuf Hpos Hfuel;
    [lia |].
  assert (h < length (files w))%nat as Hlt by by eapply lookup_lt_Some.
  assert (length (make bufsize) = bufsize) as Hmake by apply length_replicate.
  cbn [read_until_EOF].
  rewrite (Read_eq w h (MemFile a off) c (make bufsize)); try done; cbn [_gf _df].
  2: lia.
  2: { unfold fits. rewrite Hmake. lia. }
  case_bool_decide as Heof; cbn.
  - assert (off = _feg c) as -> by lia.
    rewrite Z.sub_diag. cbn. rewrite !app_nil_r.
    destruct w. unfold set_files. cbn in *. by rewrite list_insert_id.
  - rewrite Hmake.
    set (n := Z.min (Z.of_nat bufsize) (_feg c - off)).
    assert (0 < n ∧ off + n ≤ _feg c) as [Hn Hle] by (subst n; lia).
    destruct Hok as [Hsz Hlen].
    rewrite (IH _ (off + n)); cbn; try done; try lia.
    + rewrite list_insert_insert_eq. do 3 f_equal.
      rewrite <- app_assoc. f_equal.
      unfold delivered. rewrite take_app_length'.
      2: { rewrite length_take, length_drop. lia. }
      replace (drop (Z.to_nat (off + n)) (_fef c))
        with (drop (Z.to_nat n) (drop (Z.to_nat off) (_fef c))).
      2: { rewrite drop_drop. f_equal. lia. }
      rewrite take_take_drop. f_equal. lia.
    + by apply list_lookup_insert_eq.
Qed.

(** C2. Round trip: the bytes written through the handle of a new
    temporary file are the bytes a reader obtains, up to the end of the
    stream, from a handle opened afterwards under the file's name. *)
Theorem TempFile_Write_Open_Read_roundtrip w (dir pattern : string)
    (B : list Byte.byte) (bufsize fuel : nat) :
  Z.of_nat (length B) + Z.of_nat bufsize ≤ MaxInt64 →
  (0 < bufsize)%nat → (length B < fuel)%nat →
  ∃ w1 h w2 w3 name w4 h' w5,
    TempFile rand_Read dir pattern w = (w1, (Some h, None)) ∧
    Write h B w1 = Some (w2, (Z.of_nat (length B), None)) ∧
    Name h w2 = Some (w3, name) ∧
    Open name w3 = (w4, (Some h', None)) ∧
    read_until_EOF fuel bufsize h' [] w4 = Some (w5, (B, None)).
Proof.
  intros Hlen Hpos Hfuel.
  rewrite TempFile_eq. cbn zeta.
  set (name := (dir +:+ "/") +:+ (_eb rand_Read pattern (ext w)).2).
  set (e' := (_eb rand_Read pattern (ext w)).1).
  set (a := length (cells w)). set (h := length (files w)).
  set (c0 := MemDataCell name [] 0).
  set (w1 := World (cells w ++ [c0]) (files w ++ [MemFile a 0])
               (MemStorage (<[name := a]> (_ac (storage w)))) e').
  assert (files w1 !! h = Some (MemFile a 0)) as Hf1.
  { subst w1 h. cbn. by rewrite lookup_app_r, Nat.sub_diag. }
  assert (cells w1 !! a = Some c0) as Hc1.
  { subst w1 a. cbn. by rewrite lookup_app_r, Nat.sub_diag. }
  assert (cell_ok c0) as Hok0.
  { subst c0. unfold cell_ok, MaxInt64. cbn. lia. }
  set (c1 := MemDataCell name B (Z.of_nat (length B))).
  set (w2 := set_cells (<[a := c1]> (cells w1)) w1).
  assert (Write h B w1 = Some (w2, (Z.of_nat (length B), None))) as HW.
  { rewrite (Write_eq w1 h (MemFile a 0) c0 B); try done.
    unfold fits. subst c0. cbn. lia. }
  assert (cells w2 !! a = Some c1) as Hc2.
  { subst w2. cbn. apply list_lookup_insert_eq. by eapply lookup_lt_Some. }
  assert (Name h w2 = Some (w2, name)) as HN.
  { by apply (Name_eq w2 h (MemFile a 0) c1). }
  set (h' := length (files w2)).
  set (w4 := set_files (files w2 ++ [MemFile a 0]) w2).
  assert (Open name w2 = (w4, (Some h', None))) as HO.
  { unfold Open, Map_Load. subst w2 w1. cbn. by rewrite lookup_insert_eq. }
  assert (files w4 !! h' = Some (MemFile a 0)) as Hf4.
  { subst w4 h'. cbn. by rewrite lookup_app_r, Nat.sub_diag. }
  exists w1, h, w2, w2, name, w4, h'. eexists.
  split; [done |]. split; [done |]. split; [done |]. split; [done |].
  rewrite (read_until_EOF_rest fuel bufsize w4 h' a 0 c1 []); try done.
  all: subst c1; unfold cell_ok; cbn; try lia.
  by rewrite Z.sub_0_r, Nat2Z.id, firstn_all.
Qed.

(** C9. The name generator asks the random source for 6 bytes and turns
    the 6-byte buffer into a token of 12 hexadecimal digits.  [TempFile]
    stores a new empty cell under [dir], ["/"], [pattern] and the token,
    and returns a new handle on it with offset 0.  [TempDir] returns
    [pattern] and the token and leaves cells, handles and storage map
    alone. *)
Theorem name_generation w (dir pattern : string) (e' : Ext)
    (drawn : list Byte.byte) :
  rand_Read (ext w) 6 = (e', (drawn, None)) →
  let buf := (copy (make 6) drawn).1 in
  let token := EncodeToString buf in
  let name := (dir +:+ "/") +:+ (pattern +:+ token) in
  let w' := (TempFile rand_Read dir pattern w).1 in
  length buf = 6%nat ∧ String.length token = 12%nat ∧
  _efc rand_Read 6 (ext w) = (e', (token, None)) ∧
  TempFile rand_Read dir pattern w =
    (World (cells w ++ [MemDataCell name [] 0])
           (files w ++ [MemFile (length (cells w)) 0])
           (MemStorage (<[name := length (cells w)]> (_ac (storage w))))
           e',
     (Some (length (files w)), None)) ∧
  _ac (storage w') !! name = Some (length (cells w)) ∧
  cells w' !! length (cells w) = Some (MemDataCell name [] 0) ∧
  files w' !! length (files w) = Some (MemFile (length (cells w)) 0) ∧
  TempDir rand_Read pattern w = (set_ext e' w, (pattern +:+ token, None)).
Proof.
  intros Hrand buf token name w'.
  assert (_efc rand_Read 6 (ext w) = (e', (token, None))) as Hefc.
  { unfold _efc. change (length (make 6)) with 6%nat. by rewrite Hrand. }
  assert (_eb rand_Read pattern (ext w) = (e', pattern +:+ token)) as Heb.
  { unfold _eb. by rewrite Hefc. }
  assert (length buf = 6%nat) as Hbuf by (subst buf; by rewrite copy_length).
  assert (TempFile rand_Read dir pattern w =
    (World (cells w ++ [MemDataCell name [] 0])
           (files w ++ [MemFile (length (cells w)) 0])
           (MemStorage (<[name := length (cells w)]> (_ac (storage w))))
           e',
     (Some (length (files w)), None))) as HT.
  { rewrite TempFile_eq. by rewrite Heb. }
  split; [done |]. split.
  { subst token. by rewrite EncodeToString_length, Hbuf. }
  split; [done |]. split; [done |].
  subst w'. rewrite HT. cbn.
  split; [by rewrite lookup_insert_eq |].
  split; [by rewrite lookup_app_r, Nat.sub_diag |].
  split; [by rewrite lookup_app_r, Nat.sub_diag |].
  unfold TempDir. by rewrite Heb.
Qed.

(** [TempFile] and [TempDir] return a nil error in every world, whatever
    the random source delivers: their error result is the literal [nil]. *)
Lemma TempFile_TempDir_nil_error w (dir pattern : string) :
  (TempFile rand_Read dir pattern w).2 = (Some (length (files w)), None) ∧
  (TempDir rand_Read pattern w).2.2 = None.
Proof.
  split; [by rewrite TempFile_eq |].
  unfold TempDir. by destruct (_eb rand_Read pattern (ext w)).
Qed.

End TempFiles.

(** ** Invariants of reachable worlds *)

Section Invariants.

Context {Ext : Type}.
Variable ioutil_ReadFile : Ext → string → Ext * (list Byte.byte * option error).
Variable rand_Read : Ext → nat → Ext * (list Byte.byte * option error).

(** What [ioutil.ReadFile] returns is a Go slice. *)
Hypothesis ReadFile_is_slice :
  ∀ e path, Z.of_nat (length (ioutil_ReadFile e path).2.1) ≤ MaxInt64.

Implicit Types (w : world Ext) (h a : loc) (f : memFile) (c : memDataCell)
  (p : list Byte.byte).

Lemma init_ok (e : Ext) : world_ok (init e).
Proof.
  unfold world_ok.
  split; [| split]; intros x y Hx; cbn in Hx; by rewrite ?lookup_empty in Hx.
Qed.

(** Allocating a cell keeps the old cells and handles in order. *)
Lemma alloc_cell_ok w c0 :
  world_ok w → cell_ok c0 →
  (∀ a c, (cells w ++ [c0]) !! a = Some c → cell_ok c) ∧
  (∀ h f, files w !! h = Some f →
     ∃ c, (cells w ++ [c0]) !! _df f = Some c ∧ 0 ≤ _gf f ≤ _feg c) ∧
  (∀ k a, _ac (storage w) !! k = Some a → is_Some ((cells w ++ [c0]) !! a)).
Proof.
  intros (Hcells & Hfiles & Hsto) Hc0. split; [| split].
  - intros a c [Hold | [_ Hnew]]%lookup_app_Some; [by eapply Hcells |].
    destruct (a - length (cells w))%nat; cbn in Hnew; [congruence | done].
  - intros h f Hf. destruct (Hfiles h f Hf) as (c & Hc & Hoff).
    exists c. split; [by apply lookup_app_l_Some | done].
  - intros k a Hk. destruct (Hsto k a Hk) as [c Hc].
    exists c. by apply lookup_app_l_Some.
Qed.

Lemma Add_ok w (path : string) : world_ok w → world_ok (Add ioutil_ReadFile path w).1.
Proof.
  intros Hw. unfold Add.
  pose proof (ReadFile_is_slice (ext w) path) as Hslice.
  destruct (ioutil_ReadFile (ext w) path) as [e' [data [err |]]]; cbn in *; [done |].
  assert (cell_ok (MemDataCell path data 0)) as Hc0 by (unfold cell_ok; cbn; lia).
  destruct (alloc_cell_ok w _ Hw Hc0) as (Hcells & Hfiles & Hsto).
  split; [done |]. split; [done |]. cbn. unfold Map_Store.
  intros k a [[_ <-] | [_ Hold]]%lookup_insert_Some; [| by eapply Hsto].
  rewrite lookup_app_r, Nat.sub_diag by done. by eexists.
Qed.

Lemma TempFile_ok w (dir pattern : string) :
  world_ok w → world_ok (TempFile rand_Read dir pattern w).1.
Proof.
  intros Hw. rewrite TempFile_eq. cbn.
  set (name := (dir +:+ "/") +:+ (_eb rand_Read pattern (ext w)).2).
  assert (cell_ok (MemDataCell name [] 0)) as Hc0.
  { unfold cell_ok, MaxInt64. cbn. lia. }
  destruct (alloc_cell_ok w _ Hw Hc0) as (Hcells & Hfiles & Hsto).
  split; [done |]. split; cbn.
  - intros h f [Hold | [_ Hnew]]%lookup_app_Some; [by eapply Hfiles |].
    destruct (h - length (files w))%nat; cbn in Hnew; [| done].
    injection Hnew as <-. cbn. eexists.
    rewrite lookup_app_r, Nat.sub_diag by done. split; [done |]. cbn. lia.
  - intros k a [[_ <-] | [_ Hold]]%lookup_insert_Some; [| by eapply Hsto].
    rewrite lookup_app_r, Nat.sub_diag by done. by eexists.
Qed.

Lemma Open_ok w (path : string) : world_ok w → world_ok (Open path w).1.
Proof.
  intros Hw. unfold Open, Map_Load.
  destruct (_ac (storage w) !! path) as [a |] eqn:Hpath; [| done].
  destruct Hw as (Hcells & Hfiles & Hsto). cbn.
  split; [done |]. split; [| done]. cbn.
  intros h f [Hold | [_ Hnew]]%lookup_app_Some; [by eapply Hfiles |].
  destruct (h - length (files w))%nat; cbn in Hnew; [| done].
  injection Hnew as <-. cbn.
  destruct (Hsto path a Hpath) as [c Hc]. exists c. split; [done |].
  destruct (Hcells a c Hc) as [? _]. lia.
Qed.

Lemma RemoveAll_ok w (dir : string) : world_ok w → world_ok (RemoveAll dir w).1.
Proof.
  intros (Hcells & Hfiles & Hsto).
  rewrite RemoveAll_eq.
  split; [done |]. split; [done |]. cbn. intros k a H. by rewrite lookup_empty in H.
Qed.

Lemma TempDir_ok w (pattern : string) :
  world_ok w → world_ok (TempDir rand_Read pattern w).1.
Proof. unfold TempDir. by destruct (_eb rand_Read pattern (ext w)). Qed.

Lemma Read_ok w h p w' r : world_ok w → Read h p w = Some (w', r) → world_ok w'.
Proof.
  intros (Hcells & Hfiles & Hsto) HR.
  destruct (Read_inv _ _ _ _ _ HR) as (f & c & off & Hf & Hc & Hoff & ->).
  split; [done |]. split; [| done]. cbn.
  intros h' f' Hf'.
  destruct (decide (h' = h)) as [-> | Hne].
  - rewrite list_lookup_insert_eq in Hf' by by eapply lookup_lt_Some.
    injection Hf' as <-. cbn. exists c. split; [done |].
    destruct (Hfiles h f Hf) as (c' & Hc' & Hoff').
    assert (c' = c) as -> by congruence. lia.
  - rewrite list_lookup_insert_ne in Hf' by done. by eapply Hfiles.
Qed.

(** [Write] keeps the distance between size and length of the content
    and never lowers the size. *)
Lemma Write_size w h f c p w' r :
  files w !! h = Some f → cells w !! _df f = Some c →
  cell_ok c → Write h p w = Some (w', r) →
  ∃ c', cells w' !! _df f = Some c' ∧ _dfb c' = _dfb c ∧
    _fef c' = _fef c ++ p ∧ _feg c' = _feg c + Z.of_nat (length p) ∧
    _feg c ≤ _feg c' ∧ cell_ok c'.
Proof.
  intros Hf Hc Hok HW.
  destruct (Write_inv _ _ _ _ _ HW) as (f0 & c0 & Hf0 & Hc0 & Hfits & _ & _).
  assert (f0 = f) as -> by congruence. assert (c0 = c) as -> by congruence.
  rewrite (Write_eq w h f c p) in HW by done. injection HW as <- _.
  eexists. split.
  { cbn. apply list_lookup_insert_eq. by eapply lookup_lt_Some. }
  destruct Hok as [Hsz Hlen]. unfold cell_ok, fits in *. cbn.
  rewrite length_app. repeat split; lia.
Qed.

Lemma Write_ok w h p w' r : world_ok w → Write h p w = Some (w', r) → world_ok w'.
Proof.
  intros (Hcells & Hfiles & Hsto) HW.
  destruct (Write_inv _ _ _ _ _ HW) as (f & c & Hf & Hc & Hfits & _ & Hw').
  destruct (Write_size w h f c p w' r Hf Hc (Hcells _ _ Hc) HW)
    as (c' & Hc' & _ & _ & _ & Hgrow & Hok').
  assert (cells w' = <[_df f := c']> (cells w)) as Hcs.
  { rewrite Hw' in Hc' |- *. cbn in *.
    rewrite list_lookup_insert_eq in Hc' by by eapply lookup_lt_Some.
    by injection Hc' as <-. }
  assert (files w' = files w ∧ storage w' = storage w) as [Hfs Hst] by by rewrite Hw'.
  split; [| split].
  - intros a c1. rewrite Hcs. intros [[_ [<- _]] | [_ Hold]]%list_lookup_insert_Some;
      [done | by eapply Hcells].
  - intros h1 f1. rewrite Hfs, Hcs. intros Hf1.
    destruct (Hfiles h1 f1 Hf1) as (c1 & Hc1 & Hoff1).
    destruct (decide (_df f1 = _df f)) as [Heq | Hne].
    + exists c'. rewrite Heq. split.
      * apply list_lookup_insert_eq. by eapply lookup_lt_Some.
      * assert (c1 = c) as -> by congruence. lia.
    + exists c1. by rewrite list_lookup_insert_ne.
  - intros k a. rewrite Hst, Hcs. intros Hk.
    apply list_lookup_insert_is_Some. by eapply Hsto.
Qed.

(** Every world the package can be brought into is well-formed, so the
    conditions under which the handle operations are specified hold for
    every handle there. *)
Lemma reachable_ok w : reachable ioutil_ReadFile rand_Read w → world_ok w.
Proof.
  induction 1 as [e | w w' k _ IH Hexec]; [apply init_ok |].
  destruct k; unfold exec in Hexec.
  - injection Hexec as <-. by apply (Add_ok w path).
  - injection Hexec as <-. by apply (Open_ok w path).
  - injection Hexec as <-. by apply (TempFile_ok w dir pattern).
  - injection Hexec as <-. by apply (TempDir_ok w pattern).
  - injection Hexec as <-. by apply (RemoveAll_ok w dir).
  - destruct (Read h p w) as [[w1 r] |] eqn:HR; [| done].
    injection Hexec as <-. by eapply Read_ok.
  - destruct (Write h p w) as [[w1 r] |] eqn:HW; [| done].
    injection Hexec as <-. by eapply Write_ok.
  - unfold Name in Hexec. destruct (files w !! h) as [f |]; [| done]. cbn in Hexec.
    destruct (cells w !! _df f); [| done]. by injection Hexec as <-.
  - by injection Hexec as <-.
Qed.

(** In particular every handle of a reachable world points to a cell and
    has its offset between 0 and the size of that cell. *)
Lemma reachable_handle w h f :
  reachable ioutil_ReadFile rand_Read w → files w !! h = Some f →
  ∃ c, cells w !! _df f = Some c ∧ 0 ≤ _gf f ≤ _feg c ∧ cell_ok c.
Proof.
  intros (Hcells & Hfiles & _)%reachable_ok Hf.
  destruct (Hfiles h f Hf) as (c & Hc & Hoff). exists c. eauto.
Qed.

End Invariants.

(** ** The package at work on concrete inputs *)

Example run_roundtrip :
  (let '(w1, (h, _)) := TempFile steady_rand "dir" "img" (init 0%nat) in
   h ← h;
   '(w2, _) ← Write h [x01; x02; x03] w1;
   '(w3, nm) ← Name h w2;
   let '(w4, (h', _)) := Open nm w3 in
   h' ← h';
   '(w5, r) ← read_until_EOF 10 2 h' [] w4;
   Some (nm, r))
  = Some ("dir/imgabababababab", ([x01; x02; x03], None)).
Proof. vm_compute. reflexivity. Qed.

(** C1 on the code.  [Add] of a file of one byte stores a cell whose
    content has length 1 and whose size is 0; a handle opened on it is at
    the end of the stream at once, so the byte cannot be read back. *)
Theorem Add_size_mismatch :
  let w := (Add disk_ReadFile "a.bin" (init 0%nat)).1 in
  let w1 := (Open "a.bin" w).1 in
  (Add disk_ReadFile "a.bin" (init 0%nat)).2 = None ∧
  _ac (storage w) !! "a.bin" = Some 0%nat ∧
  cells w !! 0%nat = Some (MemDataCell "a.bin" [x41] 0) ∧
  (∃ c, cells w !! 0%nat = Some c ∧ _feg c ≠ Z.of_nat (length (_fef c))) ∧
  (Open "a.bin" w).2 = (Some 0%nat, None) ∧
  Read 0%nat (make 1) w1 = Some (w1, (make 1, (0, Some io_EOF))).
Proof.
  cbv zeta. split; [reflexivity |]. split; [by vm_compute |].
  split; [reflexivity |]. split.
  - eexists. split; [reflexivity |]. cbn. lia.
  - split; by vm_compute.
Qed.

(** The round trip on three bytes, read back two at a time. *)
Lemma roundtrip_witness :
  ∃ w1 h w2 w3 name w4 h' w5,
    TempFile steady_rand "dir" "img" (init 0%nat) = (w1, (Some h, None)) ∧
    Write h [x01; x02; x03] w1 = Some (w2, (3, None)) ∧
    Name h w2 = Some (w3, name) ∧
    Open name w3 = (w4, (Some h', None)) ∧
    read_until_EOF 4 2 h' [] w4 = Some (w5, ([x01; x02; x03], None)).
Proof.
  apply (TempFile_Write_Open_Read_roundtrip steady_rand (init 0%nat) "dir" "img"
           [x01; x02; x03] 2 4).
  - unfold MaxInt64. cbn. lia.
  - lia.
  - cbn. lia.
Defined.

(** [Read] in the middle of the file, at its end, and with an empty
    buffer. *)
Lemma Read_spec_witness :
  Read 0%nat [x00; x00; x00; x00] sample_world
    = Some (drained_world, ([x02; x03; x00; x00], (2, None))) ∧
  Read 0%nat [x00; x00] drained_world
    = Some (drained_world, ([x00; x00], (0, Some io_EOF))) ∧
  Read 0%nat [] sample_world = Some (sample_world, ([], (0, None))).
Proof.
  split; [| split].
  - pose proof (Read_spec sample_world 0%nat (MemFile 0%nat 1) sample_cell
                  [x00; x00; x00; x00] eq_refl eq_refl
                  ltac:(cbn; lia) ltac:(in_range) ltac:(in_range)) as H.
    cbv zeta in H. destruct H as (_ & H & _).
    exact (proj1 (H ltac:(cbn; lia))).
  - pose proof (Read_spec drained_world 0%nat (MemFile 0%nat 3) sample_cell
                  [x00; x00] eq_refl eq_refl
                  ltac:(cbn; lia) ltac:(in_range) ltac:(in_range)) as H.
    cbv zeta in H. destruct H as (H & _ & _).
    exact (H ltac:(cbn; lia)).
  - pose proof (Read_spec sample_world 0%nat (MemFile 0%nat 1) sample_cell
                  [] eq_refl eq_refl
                  ltac:(cbn; lia) ltac:(in_range) ltac:(in_range)) as H.
    cbv zeta in H. destruct H as (_ & _ & H).
    exact (H ltac:(cbn; lia) eq_refl).
Defined.

(** Two writes through a handle whose offset is 1, and an empty write. *)
Lemma Write_appends_witness :
  ∃ w1 w2,
    Write 0%nat [x0a] sample_world = Some (w1, (1, None)) ∧
    Write 0%nat [x0b] w1 = Some (w2, (1, None)) ∧
    cells w2 !! 0%nat = Some (MemDataCell "dir/f" [x01; x02; x03; x0a; x0b] 5) ∧
    Write 0%nat [] sample_world = Some (sample_world, (0, None)).
Proof.
  pose proof (Write_appends sample_world 0%nat (MemFile 0%nat 1) sample_cell
                [x0a] [x0b] eq_refl eq_refl ltac:(in_range) ltac:(in_range)) as H.
  cbv zeta in H. destruct H as (H1 & _ & _ & (w2 & H2 & H3) & H4).
  eexists _, w2. split; [exact H1 |]. split; [exact H2 |].
  split; [exact H3 | exact H4].
Defined.

(** [Open] of a missing and of a stored path. *)
Lemma Open_spec_witness :
  Open "missing" (init 0%nat)
    = (init 0%nat, (None, Some (errors_New "Cannot open the file missing"))) ∧
  Open "dir/f" sample_world
    = (set_files [MemFile 0%nat 1; MemFile 0%nat 0] sample_world, (Some 1%nat, None)).
Proof.
  split.
  - exact (proj1 (Open_spec (init 0%nat) "missing") eq_refl).
  - exact (proj1 (proj2 (Open_spec sample_world "dir/f") 0%nat eq_refl)).
Defined.

(** [Add] of a file that is missing on the disk and of one that is
    there. *)
Lemma Add_spec_witness :
  Add disk_ReadFile "nope" sample_world
    = (sample_world, Some (foreign_error "open nope: no such file or directory")) ∧
  (Add disk_ReadFile "a.bin" sample_world).2 = None ∧
  _ac (storage (Add disk_ReadFile "a.bin" sample_world).1) !! "a.bin" = Some 1%nat.
Proof.
  split; [| split].
  - exact (proj1 (proj1 (Add_spec disk_ReadFile sample_world "nope" 0%nat []) _ eq_refl)).
  - exact (proj1 (proj2 (Add_spec disk_ReadFile sample_world "a.bin" 0%nat [x41]) eq_refl)).
  - pose proof (proj2 (Add_spec disk_ReadFile sample_world "a.bin" 0%nat [x41]) eq_refl) as H.
    cbv zeta in H. destruct H as (_ & (c & H & _) & _). exact H.
Defined.

(** Name generation with a random source that delivers [0xab] bytes. *)
Lemma name_generation_witness :
  steady_rand 0%nat 6 = (1%nat, (replicate 6 xab, None)) ∧
  _efc steady_rand 6 0%nat = (1%nat, ("abababababab", None)) ∧
  String.length "abababababab" = 12%nat ∧
  (TempFile steady_rand "dir" "img" (init 0%nat)).2 = (Some 0%nat, None) ∧
  _ac (storage (TempFile steady_rand "dir" "img" (init 0%nat)).1) !! "dir/imgabababababab"
    = Some 0%nat ∧
  TempDir steady_rand "img" (init 0%nat) = (init 1%nat, ("imgabababababab", None)).
Proof.
  pose proof (name_generation steady_rand (init 0%nat) "dir" "img" 1%nat
                (replicate 6 xab) eq_refl) as H.
  cbv zeta in H. destruct H as (_ & Hlen & Hefc & HT & Hsto & _ & _ & HD).
  split; [reflexivity |]. split; [exact Hefc |]. split; [exact Hlen |].
  split; [exact (f_equal snd HT) |]. split; [exact Hsto | exact HD].
Defined.

(** The frame of the reading operations on the sample world. *)
Lemma readers_frame_witness :
  Name 0%nat sample_world = Some (sample_world, "dir/f") ∧
  Close 0%nat sample_world = (sample_world, None) ∧
  cells (Open "dir/f" sample_world).1 = cells sample_world ∧
  storage (Open "dir/f" sample_world).1 = storage sample_world ∧
  ∃ w' r, Read 0%nat [x00] sample_world = Some (w', r) ∧
    cells w' = cells sample_world ∧ storage w' = storage sample_world.
Proof.
  pose proof (readers_frame sample_world 0%nat (MemFile 0%nat 1) sample_cell
                [x00] "dir/f" eq_refl eq_refl
                ltac:(cbn; lia) ltac:(in_range) ltac:(in_range)) as H.
  destruct H as ((Hoc & Hos & _) & HN & HC & (w' & r & HR & Hc & Hs & _)).
  split; [exact HN |]. split; [exact HC |]. split; [exact Hoc |].
  split; [exact Hos |]. exists w', r. split; [exact HR |]. split; [exact Hc | exact Hs].
Defined.

(** ** How the operations compose *)

Section Composition.

Context {Ext : Type}.
Variable ioutil_ReadFile : Ext → string → Ext * (list Byte.byte * option error).
Variable rand_Read : Ext → nat → Ext * (list Byte.byte * option error).

Implicit Types (w : world Ext) (h a : loc) (f : memFile) (c : memDataCell)
  (p : list Byte.byte).

(** What [Read] returns depends on its handle and on the cells only. *)
Lemma Read_result_ext w w' h p :
  files w !! h = files w' !! h → cells w = cells w' →
  snd <$> Read h p w = snd <$> Read h p w'.
Proof.
  intros Hf Hc. unfold Read. rewrite <- Hf, <- Hc.
  destruct (files w !! h) as [f |]; [| done]. cbn.
  destruct (cells w !! _df f) as [c |]; [| done]. cbn.
  match goal with
  | |- context [mbind _ ?m] => destruct m as [[[cb p1] beyond] |]; [| done]
  end.
  cbn. case_bool_decide; [done |].
  match goal with
  | |- context [slice ?s ?lo ?hi] => destruct (slice s lo hi) as [src |]; [| done]
  end.
  cbn. by destruct (copy p1 src).
Qed.

(** What [Write] does to the cells and what it returns depend on its
    handle and on the cells only. *)
Lemma Write_result_ext w w' h p :
  files w !! h = files w' !! h → cells w = cells w' →
  (λ r, (cells r.1, r.2)) <$> Write h p w = (λ r, (cells r.1, r.2)) <$> Write h p w'.
Proof.
  intros Hf Hc. unfold Write. rewrite <- Hf, <- Hc.
  destruct (files w !! h) as [f |]; [| done]. cbn.
  destruct (cells w !! _df f) as [c |]; [| done]. cbn.
  by destruct (append (_fef c) p).
Qed.

(** X4. Handles do not disturb each other's reading: a [Read] through one
    handle leaves what a [Read] through another handle returns as it
    was. *)
Theorem Read_other_handle_unaffected w h1 h2 (p1 p2 : list Byte.byte) w1 r1 :
  h1 ≠ h2 → Read h1 p1 w = Some (w1, r1) →
  snd <$> Read h2 p2 w1 = snd <$> Read h2 p2 w.
Proof.
  intros Hne HR.
  destruct (Read_inv _ _ _ _ _ HR) as (f & c & off & _ & _ & _ & ->).
  apply Read_result_ext; cbn; [| done].
  by rewrite list_lookup_insert_ne.
Qed.

(** X5. [RemoveAll] takes the paths away, not the files that are open: every
    [Open] afterwards fails, while [Read] and [Write] through the handles
    obtained before return what they would have returned. *)
Theorem RemoveAll_keeps_open_handles w (dir path : string) h p :
  (Open path (RemoveAll dir w).1).2
    = (None, Some (errors_New ("Cannot open the file " +:+ path))) ∧
  snd <$> Read h p (RemoveAll dir w).1 = snd <$> Read h p w ∧
  (λ r, (cells r.1, r.2)) <$> Write h p (RemoveAll dir w).1
    = (λ r, (cells r.1, r.2)) <$> Write h p w.
Proof.
  rewrite RemoveAll_eq. cbn [fst]. split; [| split].
  - unfold Open, Map_Load. cbn. by rewrite lookup_empty.
  - by apply Read_result_ext.
  - by apply Write_result_ext.
Qed.

(** X6. A file brought in by [Add] cannot be read: [Open] on its path succeeds,
    and the first [Read] through the new handle, whatever the buffer,
    returns 0 bytes and [io.EOF], because the cell was stored with size
    0. *)
Theorem Add_Open_Read_is_EOF w (path : string) (e' : Ext) (data p : list Byte.byte) :
  ioutil_ReadFile (ext w) path = (e', (data, None)) →
  let w1 := (Add ioutil_ReadFile path w).1 in
  let w2 := (Open path w1).1 in
  (Add ioutil_ReadFile path w).2 = None ∧
  (Open path w1).2 = (Some (length (files w)), None) ∧
  Read (length (files w)) p w2 = Some (w2, (p, (0, Some io_EOF))).
Proof.
  intros HR. cbv zeta.
  assert (Add ioutil_ReadFile path w
          = (World (cells w ++ [MemDataCell path data 0]) (files w)
               (MemStorage (<[path := length (cells w)]> (_ac (storage w)))) e',
             None)) as ->.
  { unfold Add, Map_Store. by rewrite HR. }
  cbn [fst snd]. split; [done |].
  unfold Open, Map_Load. cbn. rewrite lookup_insert_eq. cbn.
  split; [done |].
  unfold Read. cbn.
  rewrite lookup_app_r, Nat.sub_diag by done. cbn.
  rewrite lookup_app_r, Nat.sub_diag by done. cbn.
  rewrite (bool_decide_eq_true_2 (0 >= 0)) by lia.
  case_bool_decide as Hlen; [| done].
  by rewrite slice_Some by lia.
Qed.

(** The first [n] bytes of the buffer after a [Read] of [n] bytes. *)
Lemma take_delivered c (off n : Z) p :
  0 ≤ off → 0 ≤ n → off + n ≤ Z.of_nat (length (_fef c)) →
  take (Z.to_nat n) (delivered c off n p)
    = take (Z.to_nat n) (drop (Z.to_nat off) (_fef c)).
Proof.
  intros Hoff Hn Hlen. unfold delivered.
  apply take_app_length'. rewrite length_take, length_drop. lia.
Qed.

(** X7. The end of the stream is not final.  A handle that has read everything
    returns [io.EOF]; once bytes have been appended to the cell, through
    the same or another handle, its next [Read] delivers them from the
    start. *)
Theorem Write_seen_by_handle_at_EOF w h1 h2 f1 f2 c (A p : list Byte.byte) :
  files w !! h1 = Some f1 → files w !! h2 = Some f2 → _df f1 = _df f2 →
  cells w !! _df f1 = Some c → cell_ok c →
  _feg c = Z.of_nat (length (_fef c)) → _gf f2 = _feg c →
  Z.of_nat (length (_fef c)) + Z.of_nat (length A) + Z.of_nat (length p) ≤ MaxInt64 →
  A ≠ [] →
  Read h2 p w = Some (w, (p, (0, Some io_EOF))) ∧
  ∃ w1, Write h1 A w = Some (w1, (Z.of_nat (length A), None)) ∧
    let n := Z.min (Z.of_nat (length p)) (Z.of_nat (length A)) in
    Read h2 p w1
      = Some (set_files (<[h2 := MemFile (_df f2) (_gf f2 + n)]> (files w1)) w1,
              (take (Z.to_nat n) A ++ drop (Z.to_nat n) p, (n, None))).
Proof.
  intros Hf1 Hf2 Hsame Hc Hok Hsz Hoff Hlen HA.
  assert (0 < Z.of_nat (length A)) as HlenA.
  { destruct A; [done | cbn; lia]. }
  pose proof Hok as [Hsz' Hlen'].
  split.
  { rewrite (Read_eq w h2 f2 c p); try done.
    - by rewrite bool_decide_eq_true_2 by lia.
    - by rewrite <- Hsame.
    - lia.
    - unfold fits. lia. }
  set (c1 := MemDataCell (_dfb c) (_fef c ++ A) (_feg c + Z.of_nat (length A))).
  eexists. split.
  { apply (Write_eq w h1 f1 c A); try done. unfold fits. lia. }
  fold c1. cbv zeta.
  set (w1 := set_cells (<[_df f1 := c1]> (cells w)) w).
  assert (cells w1 !! _df f2 = Some c1) as Hc1.
  { subst w1. cbn. rewrite <- Hsame. apply list_lookup_insert_eq.
    by eapply lookup_lt_Some. }
  rewrite (Read_eq w1 h2 f2 c1 p); try done.
  - rewrite bool_decide_eq_false_2 by (subst c1; cbn; lia).
    cbv zeta. subst c1. cbn [_feg _fef].
    replace (_feg c + Z.of_nat (length A) - _gf f2) with (Z.of_nat (length A)) by lia.
    do 3 f_equal. unfold delivered. cbn [_fef]. f_equal.
    replace (Z.to_nat (_gf f2)) with (length (_fef c)) by lia.
    by rewrite drop_app_length.
  - lia.
  - subst c1. unfold cell_ok. cbn. rewrite length_app. lia.
  - subst c1. unfold fits. cbn. rewrite length_app. lia.
Qed.

(** X8. Two [Read]s in a row through one handle deliver one piece of the
    content without gap or overlap: together they hand over the bytes from
    the old offset on, as many as the two buffers hold or as are left. *)
Theorem Read_twice_contiguous w h f c (p1 p2 : list Byte.byte) :
  files w !! h = Some f → cells w !! _df f = Some c →
  0 ≤ _gf f ≤ _feg c → cell_ok c → fits c p1 → fits c p2 →
  ∃ w1 b1 n1 e1 w2 b2 n2 e2,
    Read h p1 w = Some (w1, (b1, (n1, e1))) ∧
    Read h p2 w1 = Some (w2, (b2, (n2, e2))) ∧
    n1 + n2 = Z.min (Z.of_nat (length p1) + Z.of_nat (length p2)) (_feg c - _gf f) ∧
    take (Z.to_nat n1) b1 ++ take (Z.to_nat n2) b2
      = take (Z.to_nat (n1 + n2)) (drop (Z.to_nat (_gf f)) (_fef c)) ∧
    files w2 !! h = Some (MemFile (_df f) (_gf f + (n1 + n2))).
Proof.
  intros Hf Hc Hoff Hok Hfit1 Hfit2.
  pose proof Hok as [Hsz Hlen].
  assert (h < length (files w))%nat as Hlt by by eapply lookup_lt_Some.
  (* what a read at offset [off] gives, in either case *)
  assert (∀ w0 off p, files w0 !! h = Some (MemFile (_df f) off) →
            cells w0 = cells w → files w0 = <[h := MemFile (_df f) off]> (files w) →
            0 ≤ off ≤ _feg c → fits c p →
            ∃ w' b n e, Read h p w0 = Some (w', (b, (n, e))) ∧
              n = Z.min (Z.of_nat (length p)) (_feg c - off) ∧
              take (Z.to_nat n) b = take (Z.to_nat n) (drop (Z.to_nat off) (_fef c)) ∧
              cells w' = cells w ∧
              files w' = <[h := MemFile (_df f) (off + n)]> (files w)) as Hone.
  { intros w0 off p Hf0 Hc0 Hfs0 Hoff0 Hfit.
    rewrite (Read_eq w0 h (MemFile (_df f) off) c p); try done; cbn [_df _gf];
      [| by rewrite Hc0 | lia].
    case_bool_decide as Heof.
    - eexists _, _, _, _. split; [done |].
      assert (Z.min (Z.of_nat (length p)) (_feg c - off) = 0) as Hn by lia.
      split; [lia |]. split; [done |]. split; [done |].
      by rewrite Z.add_0_r.
    - eexists _, _, _, _. split; [done |]. cbv zeta.
      split; [done |]. split; [| split; [done |]].
      + apply take_delivered; lia.
      + cbn. by rewrite Hfs0, list_insert_insert_eq. }
  destruct (Hone w (_gf f) p1) as (w1 & b1 & n1 & e1 & HR1 & Hn1 & Hb1 & Hc1 & Hf1);
    try done.
  { by destruct f. }
  { rewrite list_insert_id; [done |]. by destruct f. }
  destruct (Hone w1 (_gf f + n1) p2) as (w2 & b2 & n2 & e2 & HR2 & Hn2 & Hb2 & Hc2 & Hf2);
    try done.
  { rewrite Hf1. by apply list_lookup_insert_eq. }
  { lia. }
  exists w1, b1, n1, e1, w2, b2, n2, e2.
  split; [done |]. split; [done |]. split; [lia |]. split.
  - rewrite Hb1, Hb2.
    replace (drop (Z.to_nat (_gf f + n1)) (_fef c))
      with (drop (Z.to_nat n1) (drop (Z.to_nat (_gf f)) (_fef c))).
    2: { rewrite drop_drop. f_equal. lia. }
    rewrite take_take_drop. f_equal. lia.
  - rewrite Hf2, list_lookup_insert_eq by done. do 2 f_equal. lia.
Qed.

(** [write_chunks] in closed form: the chunks end up behind the content,
    in order. *)
Lemma write_chunks_eq (chunks : list (list Byte.byte)) w h f c :
  files w !! h = Some f → cells w !! _df f = Some c → cell_ok c →
  Z.of_nat (length (_fef c)) + Z.of_nat (length (concat chunks)) ≤ MaxInt64 →
  write_chunks h chunks w =
    Some (set_cells
            (<[_df f := MemDataCell (_dfb c) (_fef c ++ concat chunks)
                          (_feg c + Z.of_nat (length (concat chunks)))]> (cells w)) w).
Proof.
  revert w c. induction chunks as [| p rest IH]; intros w c Hf Hc Hok Hlen.
  - cbn. rewrite app_nil_r, Z.add_0_r. f_equal.
    destruct c, w. unfold set_cells. cbn in *. by rewrite list_insert_id.
  - cbn [write_chunks concat] in *. rewrite length_app in Hlen.
    rewrite (Write_eq w h f c p); try done; [| unfold fits; lia]. cbn.
    set (c1 := MemDataCell (_dfb c) (_fef c ++ p) (_feg c + Z.of_nat (length p))).
    assert (_df f < length (cells w))%nat as Hlt by by eapply lookup_lt_Some.
    rewrite (IH _ c1); try done.
    + unfold set_cells. cbn. rewrite list_insert_insert_eq.
      subst c1. cbn. rewrite <- app_assoc, length_app. do 4 f_equal. lia.
    + cbn. by apply list_lookup_insert_eq.
    + destruct Hok. subst c1. unfold cell_ok. cbn. rewrite length_app. lia.
    + subst c1. cbn. rewrite length_app. lia.
Qed.

(** X11. Round trip in pieces: what was written into a new temporary file in
    any number of chunks is read back, from a handle opened under the
    file's name and with a buffer of any size, as the chunks joined
    together. *)
Theorem chunked_roundtrip w (dir pattern : string)
    (chunks : list (list Byte.byte)) (bufsize fuel : nat) :
  Z.of_nat (length (concat chunks)) + Z.of_nat bufsize ≤ MaxInt64 →
  (0 < bufsize)%nat → (length (concat chunks) < fuel)%nat →
  ∃ w1 h w2 name w3 h' w4,
    TempFile rand_Read dir pattern w = (w1, (Some h, None)) ∧
    write_chunks h chunks w1 = Some w2 ∧
    Name h w2 = Some (w2, name) ∧
    Open name w2 = (w3, (Some h', None)) ∧
    read_until_EOF fuel bufsize h' [] w3 = Some (w4, (concat chunks, None)).
Proof.
  intros Hlen Hpos Hfuel.
  rewrite TempFile_eq. cbn zeta.
  set (name := (dir +:+ "/") +:+ (_eb rand_Read pattern (ext w)).2).
  set (a := length (cells w)). set (h := length (files w)).
  set (c0 := MemDataCell name [] 0).
  set (w1 := World (cells w ++ [c0]) (files w ++ [MemFile a 0])
               (MemStorage (<[name := a]> (_ac (storage w))))
               (_eb rand_Read pattern (ext w)).1).
  assert (files w1 !! h = Some (MemFile a 0)) as Hf1.
  { subst w1 h. cbn. by rewrite lookup_app_r, Nat.sub_diag. }
  assert (cells w1 !! a = Some c0) as Hc1.
  { subst w1 a. cbn. by rewrite lookup_app_r, Nat.sub_diag. }
  set (B := concat chunks) in *.
  set (c1 := MemDataCell name B (Z.of_nat (length B))).
  set (w2 := set_cells (<[a := c1]> (cells w1)) w1).
  assert (write_chunks h chunks w1 = Some w2) as HW.
  { rewrite (write_chunks_eq chunks w1 h (MemFile a 0) c0); try done.
    all: subst c0 B; unfold cell_ok, MaxInt64 in *; cbn; lia. }
  assert (cells w2 !! a = Some c1) as Hc2.
  { subst w2. cbn. apply list_lookup_insert_eq. by eapply lookup_lt_Some. }
  set (h' := length (files w2)).
  set (w3 := set_files (files w2 ++ [MemFile a 0]) w2).
  assert (Open name w2 = (w3, (Some h', None))) as HO.
  { unfold Open, Map_Load. subst w2 w1. cbn. by rewrite lookup_insert_eq. }
  assert (files w3 !! h' = Some (MemFile a 0)) as Hf3.
  { subst w3 h'. cbn. by rewrite lookup_app_r, Nat.sub_diag. }
  exists w1, h, w2, name, w3, h'. eexists.
  split; [done |]. split; [done |].
  split; [by apply (Name_eq w2 h (MemFile a 0) c1) |]. split; [done |].
  rewrite (read_until_EOF_rest fuel bufsize w3 h' a 0 c1 []); try done.
  all: subst c1; unfold cell_ok; cbn; try lia.
  by rewrite Z.sub_0_r, Nat2Z.id, firstn_all.
Qed.

(** X10. Reading does not use up a stored file: every [Open] of a path starts
    at offset 0, so a second reader gets the same bytes as the first, the
    first [size] bytes of the content. *)
Theorem Open_reads_from_start_each_time w (path : string) a c (bufsize fuel : nat) :
  _ac (storage w) !! path = Some a → cells w !! a = Some c → cell_ok c →
  Z.of_nat (length (_fef c)) + Z.of_nat bufsize ≤ MaxInt64 →
  (0 < bufsize)%nat → (Z.to_nat (_feg c) < fuel)%nat →
  ∃ h1 w1 w2 h2 w3 w4,
    Open path w = (w1, (Some h1, None)) ∧
    read_until_EOF fuel bufsize h1 [] w1
      = Some (w2, (take (Z.to_nat (_feg c)) (_fef c), None)) ∧
    Open path w2 = (w3, (Some h2, None)) ∧ h2 ≠ h1 ∧
    read_until_EOF fuel bufsize h2 [] w3
      = Some (w4, (take (Z.to_nat (_feg c)) (_fef c), None)).
Proof.
  intros Hpath Hc Hok Hlen Hpos Hfuel. pose proof Hok as [Hsz _].
  set (h1 := length (files w)).
  set (w1 := set_files (files w ++ [MemFile a 0]) w).
  assert (Open path w = (w1, (Some h1, None))) as HO1.
  { unfold Open, Map_Load. by rewrite Hpath. }
  assert (files w1 !! h1 = Some (MemFile a 0)) as Hf1.
  { subst w1 h1. cbn. by rewrite lookup_app_r, Nat.sub_diag. }
  set (w2 := set_files (<[h1 := MemFile a (_feg c)]> (files w1)) w1).
  assert (read_until_EOF fuel bufsize h1 [] w1
          = Some (w2, (take (Z.to_nat (_feg c)) (_fef c), None))) as HR1.
  { rewrite (read_until_EOF_rest fuel bufsize w1 h1 a 0 c []); try done; try lia.
    by rewrite Z.sub_0_r. }
  set (h2 := length (files w2)).
  set (w3 := set_files (files w2 ++ [MemFile a 0]) w2).
  assert (Open path w2 = (w3, (Some h2, None))) as HO2.
  { unfold Open, Map_Load. subst w2 w1. cbn. by rewrite Hpath. }
  assert (files w3 !! h2 = Some (MemFile a 0)) as Hf3.
  { subst w3 h2. cbn. by rewrite lookup_app_r, Nat.sub_diag. }
  assert (h2 ≠ h1) as Hne.
  { subst h2 h1 w2 w1. cbn. rewrite length_insert, length_app. cbn. lia. }
  exists h1, w1, w2, h2, w3. eexists.
  split; [done |]. split; [done |]. split; [done |]. split; [done |].
  rewrite (read_until_EOF_rest fuel bufsize w3 h2 a 0 c []); try done; try lia.
  by rewrite Z.sub_0_r.
Qed.

(** X9. No check for names in use.  When the generator produces the name of an
    earlier temporary file again, the second [TempFile] takes over the
    path: the first handle still writes to its own cell and still reports
    the name, but [Open] of that name leads to the second, empty cell. *)
Theorem TempFile_same_name_replaces w (dir pattern : string) (B : list Byte.byte) :
  let w1 := (TempFile rand_Read dir pattern w).1 in
  let w2 := (TempFile rand_Read dir pattern w1).1 in
  let name := (dir +:+ "/") +:+ (_eb rand_Read pattern (ext w)).2 in
  let h1 := length (files w) in
  let a1 := length (cells w) in
  (_eb rand_Read pattern (ext w1)).2 = (_eb rand_Read pattern (ext w)).2 →
  Z.of_nat (length B) ≤ MaxInt64 →
  (TempFile rand_Read dir pattern w).2 = (Some h1, None) ∧
  (TempFile rand_Read dir pattern w1).2 = (Some (S h1), None) ∧
  ∃ w3, Write h1 B w2 = Some (w3, (Z.of_nat (length B), None)) ∧
    Name h1 w3 = Some (w3, name) ∧
    cells w3 !! a1 = Some (MemDataCell name B (Z.of_nat (length B))) ∧
    (Open name w3).2 = (Some (S (S h1)), None) ∧
    files (Open name w3).1 !! S (S h1) = Some (MemFile (S a1) 0) ∧
    cells (Open name w3).1 !! S a1 = Some (MemDataCell name [] 0).
Proof.
  intros w1 w2 name h1 a1 Hsame HB.
  set (c0 := MemDataCell name [] 0).
  assert (w1 = World (cells w ++ [c0]) (files w ++ [MemFile a1 0])
                 (MemStorage (<[name := a1]> (_ac (storage w))))
                 (_eb rand_Read pattern (ext w)).1) as Hw1.
  { subst w1. by rewrite TempFile_eq. }
  assert (w2 = World (cells w1 ++ [c0]) (files w1 ++ [MemFile (length (cells w1)) 0])
                 (MemStorage (<[name := length (cells w1)]> (_ac (storage w1))))
                 (_eb rand_Read pattern (ext w1)).1) as Hw2.
  { subst w2. rewrite TempFile_eq. cbn zeta. subst c0 name. by rewrite Hsame. }
  assert (length (cells w1) = S a1) as Hlc.
  { rewrite Hw1. cbn. rewrite length_app. cbn. subst a1. lia. }
  assert (length (files w1) = S h1) as Hlf.
  { rewrite Hw1. cbn. rewrite length_app. cbn. subst h1. lia. }
  rewrite Hlc in Hw2.
  split; [by rewrite TempFile_eq |].
  split; [by rewrite TempFile_eq, Hlf |].
  assert (files w2 !! h1 = Some (MemFile a1 0)) as Hf.
  { rewrite Hw2, Hw1. cbn. apply lookup_app_l_Some.
    by rewrite lookup_app_r, Nat.sub_diag. }
  assert (cells w2 !! a1 = Some c0) as Hc.
  { rewrite Hw2, Hw1. cbn. apply lookup_app_l_Some.
    by rewrite lookup_app_r, Nat.sub_diag. }
  assert (cells w2 !! S a1 = Some c0) as Hc'.
  { rewrite Hw2. cbn. by rewrite lookup_app_r, Hlc, Nat.sub_diag by lia. }
  assert (length (files w2) = S (S h1)) as Hlf2.
  { rewrite Hw2. cbn. rewrite length_app, Hlf. cbn. lia. }
  set (c1 := MemDataCell name B (Z.of_nat (length B))).
  set (w3 := set_cells (<[a1 := c1]> (cells w2)) w2).
  assert (cells w3 !! a1 = Some c1) as Hc3.
  { subst w3. cbn. apply list_lookup_insert_eq. by eapply lookup_lt_Some. }
  exists w3. split.
  { rewrite (Write_eq w2 h1 (MemFile a1 0) c0 B); try done.
    all: subst c0; unfold cell_ok, fits, MaxInt64 in *; cbn; lia. }
  split; [by apply (Name_eq w3 h1 (MemFile a1 0) c1) |].
  split; [done |].
  assert (Open name w3
          = (set_files (files w3 ++ [MemFile (S a1) 0]) w3,
             (Some (length (files w3)), None))) as ->.
  { unfold Open, Map_Load. subst w3. rewrite Hw2. cbn. by rewrite lookup_insert_eq. }
  cbn [fst snd]. change (files w3) with (files w2). rewrite Hlf2.
  split; [done |]. split.
  - cbn. by rewrite lookup_app_r, Hlf2, Nat.sub_diag by lia.
  - cbn. rewrite list_lookup_insert_ne by lia. done.
Qed.

End Composition.

(** ** What holds along every run *)

Section Runs.

Context {Ext : Type}.
Variable ioutil_ReadFile : Ext → string → Ext * (list Byte.byte * option error).
Variable rand_Read : Ext → nat → Ext * (list Byte.byte * option error).

Implicit Types (w : world Ext) (h a : loc) (f : memFile) (c : memDataCell)
  (p : list Byte.byte).

Lemma extends_refl c : extends c c.
Proof. unfold extends. split; [done |]. split; [done | lia]. Qed.

(** Looking up a heap after a snoc. *)
Lemma lookup_snoc_old {A : Type} (l : list A) (x y : A) (i : nat) :
  l !! i = Some y → (l ++ [x]) !! i = Some y.
Proof. apply lookup_app_l_Some. Qed.

(** The storage keys stay in step with the names of the cells. *)
Lemma exec_keys_ok (k : call) w w' :
  keys_ok w → exec ioutil_ReadFile rand_Read k w = Some w' → keys_ok w'.
Proof.
  intros Hkeys Hexec. destruct k; unfold exec in Hexec.
  - injection Hexec as <-. unfold Add, Map_Store.
    destruct (ioutil_ReadFile (ext w) path) as [e' [data [err |]]]; [done |].
    intros k a. cbn. intros [[<- <-] | [_ Hold]]%lookup_insert_Some.
    + eexists. by rewrite lookup_app_r, Nat.sub_diag.
    + destruct (Hkeys k a Hold) as (c & Hc & Hname).
      exists c. split; [by apply lookup_snoc_old | done].
  - injection Hexec as <-. unfold Open.
    by destruct (Map_Load path (_ac (storage w))).
  - injection Hexec as <-. rewrite TempFile_eq.
    intros k a. cbn. intros [[<- <-] | [_ Hold]]%lookup_insert_Some.
    + eexists. by rewrite lookup_app_r, Nat.sub_diag.
    + destruct (Hkeys k a Hold) as (c & Hc & Hname).
      exists c. split; [by apply lookup_snoc_old | done].
  - injection Hexec as <-. unfold TempDir.
    by destruct (_eb rand_Read pattern (ext w)).
  - injection Hexec as <-. rewrite Map_Range_delete_all.
    intros k a Hk. cbn in Hk. by rewrite lookup_empty in Hk.
  - destruct (Read h p w) as [[w1 r] |] eqn:HR; [| done].
    injection Hexec as <-.
    by destruct (Read_inv _ _ _ _ _ HR) as (f & c & off & _ & _ & _ & ->).
  - destruct (Write h p w) as [[w1 r] |] eqn:HW; [| done].
    injection Hexec as <-.
    destruct (Write_inv _ _ _ _ _ HW) as (f & c & Hf & Hc & _ & _ & ->).
    intros k a Hk. cbn in Hk. destruct (Hkeys k a Hk) as (c0 & Hc0 & Hname).
    cbn. destruct (decide (a = _df f)) as [-> | Hne].
    + eexists. split.
      * apply list_lookup_insert_eq. by eapply lookup_lt_Some.
      * cbn. congruence.
    + exists c0. by rewrite list_lookup_insert_ne.
  - unfold Name in Hexec. destruct (files w !! h) as [f |]; [| done]. cbn in Hexec.
    destruct (cells w !! _df f); [| done]. by injection Hexec as <-.
  - by injection Hexec as <-.
Qed.

Lemma reachable_keys_ok w : reachable ioutil_ReadFile rand_Read w → keys_ok w.
Proof.
  induction 1 as [e | w w' k _ IH Hexec].
  - intros k a Hk. cbn in Hk. by rewrite lookup_empty in Hk.
  - by eapply exec_keys_ok.
Qed.

(** X2. In every world the package can reach, a path that is stored opens
    a handle whose [Name] is that path. *)
Theorem Open_then_Name_is_path w (path : string) a :
  reachable ioutil_ReadFile rand_Read w →
  _ac (storage w) !! path = Some a →
  ∃ h w1, Open path w = (w1, (Some h, None)) ∧ Name h w1 = Some (w1, path).
Proof.
  intros Hkeys%reachable_keys_ok Hpath.
  destruct (Hkeys path a Hpath) as (c & Hc & Hname).
  exists (length (files w)), (set_files (files w ++ [MemFile a 0]) w).
  split.
  - unfold Open, Map_Load. by rewrite Hpath.
  - rewrite <- Hname.
    apply (Name_eq _ _ (MemFile a 0) c); cbn; [| done].
    by rewrite lookup_app_r, Nat.sub_diag.
Qed.

(** X3. Nothing is ever taken back.  Whatever the call, a cell that
    exists keeps its address and its name, its content only gets longer at
    the end and its size does not go down; a handle that exists keeps its
    cell and its offset does not go back. *)
Theorem exec_only_grows (k : call) w w' :
  world_ok w → exec ioutil_ReadFile rand_Read k w = Some w' →
  (∀ a c, cells w !! a = Some c → ∃ c', cells w' !! a = Some c' ∧ extends c c') ∧
  (∀ h f, files w !! h = Some f →
     ∃ f', files w' !! h = Some f' ∧ _df f' = _df f ∧ _gf f ≤ _gf f').
Proof.
  intros (Hcells & Hfiles & _) Hexec.
  assert (∀ w0, cells w0 = cells w → files w0 = files w →
            (∀ a c, cells w !! a = Some c → ∃ c', cells w0 !! a = Some c' ∧ extends c c') ∧
            (∀ h f, files w !! h = Some f →
               ∃ f', files w0 !! h = Some f' ∧ _df f' = _df f ∧ _gf f ≤ _gf f')) as Hsame.
  { intros w0 -> ->. split.
    - intros a c Hc. exists c. split; [done | apply extends_refl].
    - intros h f Hf. exists f. split; [done |]. split; [done | lia]. }
  assert (∀ c0 a c, cells w !! a = Some c →
            ∃ c', (cells w ++ [c0]) !! a = Some c' ∧ extends c c') as Hsnoc.
  { intros c0 a c Hc. exists c.
    split; [by apply lookup_snoc_old | apply extends_refl]. }
  destruct k; unfold exec in Hexec.
  - injection Hexec as <-. unfold Add.
    destruct (ioutil_ReadFile (ext w) path) as [e' [data [err |]]].
    + by apply Hsame.
    + split; [by apply Hsnoc |]. apply (Hsame w); done.
  - injection Hexec as <-. unfold Open.
    destruct (Map_Load path (_ac (storage w))); [| by apply Hsame].
    split; [apply (Hsame w); done |].
    intros h f Hf. exists f. cbn. split; [by apply lookup_snoc_old |].
    split; [done | lia].
  - injection Hexec as <-. rewrite TempFile_eq. cbn zeta.
    split; [by apply Hsnoc |].
    intros h f Hf. exists f. cbn. split; [by apply lookup_snoc_old |].
    split; [done | lia].
  - injection Hexec as <-. unfold TempDir.
    destruct (_eb rand_Read pattern (ext w)). by apply Hsame.
  - injection Hexec as <-. by apply Hsame.
  - destruct (Read h p w) as [[w1 r] |] eqn:HR; [| done].
    injection Hexec as <-.
    destruct (Read_inv _ _ _ _ _ HR) as (f & c & off & Hf & Hc & Hoff & ->).
    split; [apply (Hsame w); done |].
    intros h' f' Hf'. cbn. destruct (decide (h' = h)) as [-> | Hne].
    + eexists. split.
      * apply list_lookup_insert_eq. by eapply lookup_lt_Some.
      * assert (f' = f) as -> by congruence. cbn. split; [done | lia].
    + exists f'. rewrite list_lookup_insert_ne by done.
      split; [done |]. split; [done | lia].
  - destruct (Write h p w) as [[w1 r] |] eqn:HW; [| done].
    injection Hexec as <-.
    destruct (Write_inv _ _ _ _ _ HW) as (f & c & Hf & Hc & Hfits & _ & ->).
    split; [| apply (Hsame w); done].
    intros a c0 Hc0. cbn. destruct (decide (a = _df f)) as [-> | Hne].
    + eexists. split.
      * apply list_lookup_insert_eq. by eapply lookup_lt_Some.
      * assert (c0 = c) as -> by congruence.
        destruct (Hcells _ _ Hc) as [Hsz Hlen]. unfold fits in Hfits.
        unfold extends. cbn. split; [done |].
        split; [by apply prefix_app_r |].
        rewrite wrap64_id; unfold MinInt64, MaxInt64 in *; lia.
    + exists c0. rewrite list_lookup_insert_ne by done.
      split; [done | apply extends_refl].
  - unfold Name in Hexec. destruct (files w !! h) as [f |]; [| done]. cbn in Hexec.
    destruct (cells w !! _df f); [| done]. injection Hexec as <-. by apply Hsame.
  - injection Hexec as <-. by apply Hsame.
Qed.

(** What [ioutil.ReadFile] returns is a Go slice. *)
Hypothesis ReadFile_is_slice :
  ∀ e path, Z.of_nat (length (ioutil_ReadFile e path).2.1) ≤ MaxInt64.

(** X1. The handle operations never panic along a run.  In every world the
    package can reach, each handle points to a cell, its offset lies
    between 0 and the size, the size does not exceed the length of the
    content, and [Read] and [Write] with a buffer that fits return a
    result. *)
Theorem reachable_never_panics w h f p :
  reachable ioutil_ReadFile rand_Read w → files w !! h = Some f →
  ∃ c, cells w !! _df f = Some c ∧
    0 ≤ _gf f ≤ _feg c ∧ _feg c ≤ Z.of_nat (length (_fef c)) ∧
    (fits c p → is_Some (Read h p w) ∧ is_Some (Write h p w) ∧ is_Some (Name h w)).
Proof.
  intros (Hcells & Hfiles & _)%(reachable_ok _ _ ReadFile_is_slice) Hf.
  destruct (Hfiles h f Hf) as (c & Hc & Hoff).
  pose proof (Hcells _ _ Hc) as Hok. pose proof Hok as [Hsz Hlen].
  exists c. split; [done |]. split; [done |]. split; [lia |].
  intros Hfits. split; [| split].
  - rewrite (Read_eq w h f c p) by (done || lia). by case_bool_decide.
  - by rewrite (Write_eq w h f c p).
  - by rewrite (Name_eq w h f c).
Qed.

End Runs.

(** ** Tokens *)

Section Tokens.

Context {Ext : Type}.
Variable rand_Read : Ext → nat → Ext * (list Byte.byte * option error).

(** A byte and its two nibbles. *)
Lemma byte_nibbles (v : Byte.byte) :
  (N.shiftr (Byte.to_N v) 4 < 16)%N ∧ (N.land (Byte.to_N v) 15 < 16)%N ∧
  Byte.to_N v = (16 * N.shiftr (Byte.to_N v) 4 + N.land (Byte.to_N v) 15)%N.
Proof. destruct v; vm_compute; by repeat split. Qed.

Lemma below_16 (n : N) :
  (n < 16)%N →
  n ∈ [0; 1; 2; 3; 4; 5; 6; 7; 8; 9; 10; 11; 12; 13; 14; 15]%N.
Proof.
  intros Hn. apply list_elem_of_In. cbn.
  assert (n = 0 ∨ n = 1 ∨ n = 2 ∨ n = 3 ∨ n = 4 ∨ n = 5 ∨ n = 6 ∨ n = 7 ∨ n = 8 ∨
          n = 9 ∨ n = 10 ∨ n = 11 ∨ n = 12 ∨ n = 13 ∨ n = 14 ∨ n = 15)%N by lia.
  intuition auto.
Qed.

Lemma hexdigit_inj (n m : N) :
  (n < 16)%N → (m < 16)%N → hexdigit n = hexdigit m → n = m.
Proof.
  intros Hn%below_16 Hm%below_16 Heq.
  repeat (apply elem_of_cons in Hn as [-> | Hn]);
    [.. | by apply not_elem_of_nil in Hn];
    repeat (apply elem_of_cons in Hm as [-> | Hm]);
    try (by apply not_elem_of_nil in Hm); try reflexivity;
    vm_compute in Heq; discriminate.
Qed.

Lemma hexdigit_in_table (n : N) :
  (n < 16)%N → hexdigit n ∈ list_ascii_of_string hextable.
Proof.
  intros Hn%below_16.
  repeat (apply elem_of_cons in Hn as [-> | Hn]);
    [.. | by apply not_elem_of_nil in Hn];
    apply list_elem_of_In; vm_compute; tauto.
Qed.

Lemma EncodeToString_inj (a b : list Byte.byte) :
  EncodeToString a = EncodeToString b → a = b.
Proof.
  revert b. induction a as [| x a IH]; intros [| y b] Heq; cbn in Heq;
    try done.
  injection Heq as Hhi Hlo Hrest.
  destruct (byte_nibbles x) as (Hx1 & Hx2 & Hx).
  destruct (byte_nibbles y) as (Hy1 & Hy2 & Hy).
  apply hexdigit_inj in Hhi; [| done | done].
  apply hexdigit_inj in Hlo; [| done | done].
  assert (Byte.to_N x = Byte.to_N y) as HN by lia.
  assert (Some x = Some y) as [= ->].
  { rewrite <- (Byte.of_to_N x), <- (Byte.of_to_N y). by rewrite HN. }
  f_equal. by apply IH.
Qed.

Lemma EncodeToString_chars (src : list Byte.byte) (ch : ascii) :
  ch ∈ list_ascii_of_string (EncodeToString src) →
  ch ∈ list_ascii_of_string hextable.
Proof.
  induction src as [| v rest IH]; cbn; [by intros ?%not_elem_of_nil |].
  destruct (byte_nibbles v) as (Hhi & Hlo & _).
  intros [-> | [-> | Hin]%elem_of_cons]%elem_of_cons.
  - by apply hexdigit_in_table.
  - by apply hexdigit_in_table.
  - by apply IH.
Qed.

Lemma append_inj_r (s t1 t2 : string) : s +:+ t1 = s +:+ t2 → t1 = t2.
Proof.
  induction s as [| ch s IH]; [done |].
  change (String ch s +:+ t1) with (String ch (s +:+ t1)).
  change (String ch s +:+ t2) with (String ch (s +:+ t2)).
  intros [= H]. by apply IH.
Qed.

(** X12. Generated names are as distinct as the random bytes.  With draws
    that succeed, the name is the pattern followed by 12 characters out of
    [0123456789abcdef], and two names for one pattern are equal exactly
    when the two six-byte buffers are. *)
Theorem temp_names_equal_iff_draws_equal (w w' : world Ext) (pattern : string)
    (e1 e2 : Ext) (d1 d2 : list Byte.byte) :
  rand_Read (ext w) 6 = (e1, (d1, None)) →
  rand_Read (ext w') 6 = (e2, (d2, None)) →
  let n1 := (TempDir rand_Read pattern w).2.1 in
  let n2 := (TempDir rand_Read pattern w').2.1 in
  (n1 = n2 ↔ (copy (make 6) d1).1 = (copy (make 6) d2).1) ∧
  ∃ token, n1 = pattern +:+ token ∧ String.length token = 12%nat ∧
    ∀ ch, ch ∈ list_ascii_of_string token → ch ∈ list_ascii_of_string hextable.
Proof.
  intros H1 H2.
  assert (∀ (w0 : world Ext) e d, rand_Read (ext w0) 6 = (e, (d, None)) →
            (TempDir rand_Read pattern w0).2.1
              = pattern +:+ EncodeToString (copy (make 6) d).1) as Hname.
  { intros w0 e d Hd. unfold TempDir, _eb, _efc.
    change (length (make 6)) with 6%nat. by rewrite Hd. }
  cbv zeta. rewrite (Hname w e1 d1 H1), (Hname w' e2 d2 H2). split.
  - split.
    + by intros ?%append_inj_r%EncodeToString_inj.
    + by intros ->.
  - eexists. split; [done |]. split.
    + by rewrite EncodeToString_length, copy_length.
    + apply EncodeToString_chars.
Qed.

End Tokens.

(** ** The further properties on concrete inputs *)

Lemma disk_ReadFile_is_slice (e : nat) (path : string) :
  Z.of_nat (length (disk_ReadFile e path).2.1) ≤ MaxInt64.
Proof. unfold disk_ReadFile, MaxInt64. case_bool_decide; cbn; lia. Defined.

Lemma tmp_world_reachable : reachable disk_ReadFile steady_rand tmp_world.
Proof.
  apply (reachable_step _ _ (init 0%nat) tmp_world (call_TempFile "dir" "img")).
  - apply reachable_init.
  - reflexivity.
Defined.

Lemma reachable_never_panics_witness :
  ∃ c, cells tmp_world !! 0%nat = Some c ∧
    0 ≤ 0 ≤ _feg c ∧ _feg c ≤ Z.of_nat (length (_fef c)) ∧
    (fits c [x00] →
       is_Some (Read 0%nat [x00] tmp_world) ∧ is_Some (Write 0%nat [x00] tmp_world) ∧
       is_Some (Name 0%nat tmp_world)).
Proof.
  exact (reachable_never_panics disk_ReadFile steady_rand disk_ReadFile_is_slice
           tmp_world 0%nat (MemFile 0%nat 0) [x00] tmp_world_reachable eq_refl).
Defined.

Lemma Open_then_Name_is_path_witness :
  ∃ h w1, Open "dir/imgabababababab" tmp_world = (w1, (Some h, None)) ∧
    Name h w1 = Some (w1, "dir/imgabababababab").
Proof.
  apply (Open_then_Name_is_path disk_ReadFile steady_rand tmp_world
           "dir/imgabababababab" 0%nat tmp_world_reachable).
  by vm_compute.
Defined.

Lemma exec_only_grows_witness :
  ∃ w', exec disk_ReadFile steady_rand (call_Write 0%nat [x09]) tmp_world = Some w' ∧
    (∀ a c, cells tmp_world !! a = Some c → ∃ c', cells w' !! a = Some c' ∧ extends c c') ∧
    (∀ h f, files tmp_world !! h = Some f →
       ∃ f', files w' !! h = Some f' ∧ _df f' = _df f ∧ _gf f ≤ _gf f').
Proof.
  eexists. split; [reflexivity |].
  apply (exec_only_grows disk_ReadFile steady_rand (call_Write 0%nat [x09]) tmp_world).
  - exact (reachable_ok disk_ReadFile steady_rand disk_ReadFile_is_slice
             tmp_world tmp_world_reachable).
  - reflexivity.
Defined.

Lemma Read_other_handle_unaffected_witness :
  ∃ w1 r1, Read 1%nat [x00] shared_world = Some (w1, r1) ∧
    snd <$> Read 0%nat [x00; x00] w1 = snd <$> Read 0%nat [x00; x00] shared_world.
Proof.
  eexists _, _. split; [reflexivity |].
  eapply (Read_other_handle_unaffected shared_world 1%nat 0%nat [x00] [x00; x00]).
  - lia.
  - reflexivity.
Defined.

Lemma Add_Open_Read_is_EOF_witness :
  (Add disk_ReadFile "a.bin" sample_world).2 = None ∧
  (Open "a.bin" (Add disk_ReadFile "a.bin" sample_world).1).2 = (Some 1%nat, None) ∧
  Read 1%nat [x00; x00] (Open "a.bin" (Add disk_ReadFile "a.bin" sample_world).1).1
    = Some ((Open "a.bin" (Add disk_ReadFile "a.bin" sample_world).1).1,
            ([x00; x00], (0, Some io_EOF))).
Proof.
  exact (Add_Open_Read_is_EOF disk_ReadFile sample_world "a.bin" 0%nat [x41]
           [x00; x00] eq_refl).
Defined.

Lemma Write_seen_by_handle_at_EOF_witness :
  Read 0%nat [x00] shared_world = Some (shared_world, ([x00], (0, Some io_EOF))) ∧
  ∃ w1, Write 1%nat [x0a; x0b] shared_world = Some (w1, (2, None)) ∧
    Read 0%nat [x00] w1
      = Some (set_files (<[0%nat := MemFile 0%nat 4]> (files w1)) w1, ([x0a], (1, None))).
Proof.
  exact (Write_seen_by_handle_at_EOF shared_world 1%nat 0%nat (MemFile 0%nat 1)
           (MemFile 0%nat 3) sample_cell [x0a; x0b] [x00]
           eq_refl eq_refl eq_refl eq_refl ltac:(in_range) eq_refl eq_refl
           ltac:(in_range) ltac:(discriminate)).
Defined.

Lemma Read_twice_contiguous_witness :
  ∃ w1 b1 n1 e1 w2 b2 n2 e2,
    Read 0%nat [x00] sample_world = Some (w1, (b1, (n1, e1))) ∧
    Read 0%nat [x00; x00; x00] w1 = Some (w2, (b2, (n2, e2))) ∧
    n1 + n2 = 2 ∧
    take (Z.to_nat n1) b1 ++ take (Z.to_nat n2) b2 = take (Z.to_nat (n1 + n2)) [x02; x03] ∧
    files w2 !! 0%nat = Some (MemFile 0%nat (1 + (n1 + n2))).
Proof.
  exact (Read_twice_contiguous sample_world 0%nat (MemFile 0%nat 1) sample_cell
           [x00] [x00; x00; x00] eq_refl eq_refl
           ltac:(cbn; lia) ltac:(in_range) ltac:(in_range) ltac:(in_range)).
Defined.

Lemma TempFile_same_name_replaces_witness :
  (TempFile steady_rand "dir" "img" (init 0%nat)).2 = (Some 0%nat, None) ∧
  (TempFile steady_rand "dir" "img" tmp_world).2 = (Some 1%nat, None) ∧
  ∃ w3, Write 0%nat [x07] (TempFile steady_rand "dir" "img" tmp_world).1
          = Some (w3, (1, None)) ∧
    Name 0%nat w3 = Some (w3, "dir/imgabababababab") ∧
    cells w3 !! 0%nat = Some (MemDataCell "dir/imgabababababab" [x07] 1) ∧
    (Open "dir/imgabababababab" w3).2 = (Some 2%nat, None) ∧
    files (Open "dir/imgabababababab" w3).1 !! 2%nat = Some (MemFile 1%nat 0) ∧
    cells (Open "dir/imgabababababab" w3).1 !! 1%nat
      = Some (MemDataCell "dir/imgabababababab" [] 0).
Proof.
  exact (TempFile_same_name_replaces steady_rand (init 0%nat) "dir" "img" [x07]
           eq_refl ltac:(unfold MaxInt64; cbn; lia)).
Defined.

Lemma Open_reads_from_start_each_time_witness :
  ∃ h1 w1 w2 h2 w3 w4,
    Open "dir/f" sample_world = (w1, (Some h1, None)) ∧
    read_until_EOF 4 2 h1 [] w1 = Some (w2, ([x01; x02; x03], None)) ∧
    Open "dir/f" w2 = (w3, (Some h2, None)) ∧ h2 ≠ h1 ∧
    read_until_EOF 4 2 h2 [] w3 = Some (w4, ([x01; x02; x03], None)).
Proof.
  exact (Open_reads_from_start_each_time sample_world "dir/f" 0%nat sample_cell 2 4
           eq_refl eq_refl ltac:(in_range) ltac:(in_range) ltac:(lia) ltac:(cbn; lia)).
Defined.

Lemma chunked_roundtrip_witness :
  ∃ w1 h w2 name w3 h' w4,
    TempFile steady_rand "dir" "img" (init 0%nat) = (w1, (Some h, None)) ∧
    write_chunks h [[x01]; []; [x02; x03]] w1 = Some w2 ∧
    Name h w2 = Some (w2, name) ∧
    Open name w2 = (w3, (Some h', None)) ∧
    read_until_EOF 4 2 h' [] w3 = Some (w4, ([x01; x02; x03], None)).
Proof.
  exact (chunked_roundtrip steady_rand (init 0%nat) "dir" "img"
           [[x01]; []; [x02; x03]] 2 4
           ltac:(unfold MaxInt64; cbn; lia) ltac:(lia) ltac:(cbn; lia)).
Defined.

Lemma temp_names_equal_iff_draws_equal_witness :
  ((TempDir steady_rand "img" (init 0%nat)).2.1 = (TempDir steady_rand "img" (init 5%nat)).2.1
   ↔ (copy (make 6) (replicate 6 xab)).1 = (copy (make 6) (replicate 6 xab)).1) ∧
  ∃ token, (TempDir steady_rand "img" (init 0%nat)).2.1 = "img" +:+ token ∧
    String.length token = 12%nat ∧
    ∀ ch, ch ∈ list_ascii_of_string token → ch ∈ list_ascii_of_string hextable.
Proof.
  exact (temp_names_equal_iff_draws_equal steady_rand (init 0%nat) (init 5%nat) "img"
           1%nat 6%nat (replicate 6 xab) (replicate 6 xab) eq_refl eq_refl).
Defined.

(** ** Runs of text *)

Section RunFacts.

Import document.

Context {Other : Type}.
Variable NewCT_Text : wml_CT_Text Other.
Variable NewCT_Empty : Other.
Variable NewCT_Br : Other.
Variable NewCT_OnOff : Other.
Variable NewEG_RunInnerContent : wml_EG_RunInnerContent Other.
Variable NewCT_RPr : wml_CT_RPr Other.
Variable NewEG_RPrBase : wml_EG_RPrBase Other.

Implicit Types (x : wml_CT_R Other) (ics : list (option (wml_EG_RunInnerContent Other)))
  (bs : list (option (wml_EG_RPrBase Other))) (rpr : wml_CT_RPr Other)
  (b : wml_EG_RPrBase Other).

Lemma Text_eq x : Text x = Text_range (EG_RunInnerContent x) EmptyString.
Proof.
  unfold Text. case_decide as Hlen; [| done].
  by destruct (EG_RunInnerContent x).
Qed.

Lemma Text_range_app ics ics' (buf : string) :
  Text_range (ics ++ ics') buf = Text_range ics buf ≫= Text_range ics'.
Proof.
  revert buf. induction ics as [| [ic |] ics IH]; intros buf; cbn; [done | | done].
  apply IH.
Qed.

(** The slot a new inner content gets, after assignments through its
    pointer. *)
Lemma update_new_ic x (c : wml_EG_RunInnerContent Other)
    (g : wml_EG_RunInnerContent Other → wml_EG_RunInnerContent Other) :
  update_ic (length (EG_RunInnerContent x)) g
    (Mk_CT_R (EG_RunInnerContent x ++ [Some c]) (RPr x) (CT_R_rest x))
  = Mk_CT_R (EG_RunInnerContent x ++ [Some (g c)]) (RPr x) (CT_R_rest x).
Proof.
  unfold update_ic. cbn. f_equal.
  by rewrite alter_app_r_alt, Nat.sub_diag by lia.
Qed.

(** X13. [Text] shows what [AddText] and [AddTab] add, in the order of
    the calls, and nothing of a break: after [AddText s] the text is the old
    text followed by [s], after [AddTab] the old text followed by a tab,
    after [AddBreak] the old text.  The new inner content is taken to come
    without text and without tab. *)
Theorem Run_Text_after_add x (s t : string) :
  T NewEG_RunInnerContent = None → Tab NewEG_RunInnerContent = None →
  Text x = Some t →
  Text (AddText NewCT_Text NewEG_RunInnerContent s x) = Some (t +:+ s) ∧
  Text (AddTab NewCT_Empty NewEG_RunInnerContent x)
    = Some (t +:+ String "009"%char EmptyString) ∧
  Text (AddBreak NewCT_Br NewEG_RunInnerContent x) = Some t.
Proof.
  intros HT HTab Ht. rewrite Text_eq in Ht.
  unfold AddText, AddTab, AddBreak, newIC.
  rewrite !update_new_ic, !Text_eq. cbn [EG_RunInnerContent].
  rewrite !Text_range_app, Ht. cbn. rewrite HT, HTab. done.
Qed.

(** An assignment to a field of the first group of run properties. *)
Lemma update_base0_eq x rpr b bs (g : wml_EG_RPrBase Other → wml_EG_RPrBase Other) :
  RPr x = Some rpr → EG_RPrBase rpr = Some b :: bs →
  update_base0 g x
    = Some (Mk_CT_R (EG_RunInnerContent x)
              (Some (Mk_CT_RPr (Some (g b) :: bs) (CT_RPr_rest rpr))) (CT_R_rest x)).
Proof. intros Hr Hb. unfold update_base0. rewrite Hr. cbn. by rewrite Hb. Qed.

Lemma update_base0_inv x x' (g : wml_EG_RPrBase Other → wml_EG_RPrBase Other) :
  update_base0 g x = Some x' →
  ∃ rpr b bs, RPr x = Some rpr ∧ EG_RPrBase rpr = Some b :: bs.
Proof.
  unfold update_base0. intros H.
  destruct (RPr x) as [rpr |]; [| done]. cbn in H.
  destruct (EG_RPrBase rpr) as [| [b |] bs] eqn:Hb; try done.
  by exists rpr, b, bs.
Qed.

(** The two assignments of a setter, on the first group. *)
Lemma set_pair_eq x x' (g1 g2 : wml_EG_RPrBase Other → wml_EG_RPrBase Other) :
  update_base0 g1 x ≫= update_base0 g2 = Some x' →
  ∃ rpr b bs, RPr x = Some rpr ∧ EG_RPrBase rpr = Some b :: bs ∧
    x' = Mk_CT_R (EG_RunInnerContent x)
           (Some (Mk_CT_RPr (Some (g2 (g1 b)) :: bs) (CT_RPr_rest rpr))) (CT_R_rest x).
Proof.
  intros H. destruct (update_base0 g1 x) as [x1 |] eqn:H1; [| done]. cbn in H.
  destruct (update_base0_inv _ _ _ H1) as (rpr & b & bs & Hr & Hb).
  rewrite (update_base0_eq x rpr b bs) in H1 by done. injection H1 as <-.
  rewrite (update_base0_eq _ _ (g1 b) bs) in H by done. injection H as <-.
  exists rpr, b, bs. done.
Qed.

Lemma SetBold_inv (v : bool) x x' :
  SetBold NewCT_OnOff NewCT_RPr NewEG_RPrBase v x = Some x' →
  ∃ rpr b bs, RPr (ensureRPR NewCT_RPr NewEG_RPrBase x) = Some rpr ∧
    EG_RPrBase rpr = Some b :: bs ∧
    x' = Mk_CT_R (EG_RunInnerContent x)
           (Some (Mk_CT_RPr
                    (Some (Mk_EG_RPrBase (if v then Some NewCT_OnOff else None)
                             (if v then Some NewCT_OnOff else None)
                             (I b) (ICs b) (EG_RPrBase_rest b)) :: bs)
                    (CT_RPr_rest rpr)))
           (CT_R_rest x).
Proof.
  unfold SetBold. intros H.
  assert (EG_RunInnerContent (ensureRPR NewCT_RPr NewEG_RPrBase x) = EG_RunInnerContent x
          ∧ CT_R_rest (ensureRPR NewCT_RPr NewEG_RPrBase x) = CT_R_rest x) as [Hics Hrest].
  { unfold ensureRPR. by destruct (RPr x). }
  destruct v; cbn [negb] in H; apply set_pair_eq in H as (rpr & b & bs & Hr & Hb & ->);
    exists rpr, b, bs; by rewrite Hics, Hrest.
Qed.

Lemma SetItalic_inv (v : bool) x x' :
  SetItalic NewCT_OnOff NewCT_RPr NewEG_RPrBase v x = Some x' →
  ∃ rpr b bs, RPr (ensureRPR NewCT_RPr NewEG_RPrBase x) = Some rpr ∧
    EG_RPrBase rpr = Some b :: bs ∧
    x' = Mk_CT_R (EG_RunInnerContent x)
           (Some (Mk_CT_RPr
                    (Some (Mk_EG_RPrBase (B b) (BCs b)
                             (if v then Some NewCT_OnOff else None)
                             (if v then Some NewCT_OnOff else None)
                             (EG_RPrBase_rest b)) :: bs)
                    (CT_RPr_rest rpr)))
           (CT_R_rest x).
Proof.
  unfold SetItalic. intros H.
  assert (EG_RunInnerContent (ensureRPR NewCT_RPr NewEG_RPrBase x) = EG_RunInnerContent x
          ∧ CT_R_rest (ensureRPR NewCT_RPr NewEG_RPrBase x) = CT_R_rest x) as [Hics Hrest].
  { unfold ensureRPR. by destruct (RPr x). }
  destruct v; cbn [negb] in H; apply set_pair_eq in H as (rpr & b & bs & Hr & Hb & ->);
    exists rpr, b, bs; by rewrite Hics, Hrest.
Qed.

(** X14. [SetBold(true)] makes [IsBold] true.  [SetBold(false)] clears the
    first group of run properties only, while [IsBold] looks at all of
    them.  So [SetBold(false)] never turns bold on: if [IsBold] is true
    afterwards, a later group was bold before.  And it need not turn bold
    off: when no later slot holds a group equal to the first one, so that
    none of them can share the object of slot 0, [IsBold] afterwards is
    what the later groups say.  (A later slot that shares the pointer of
    slot 0 is cleared along with it; the statement leaves that case
    open.)  On a run whose properties exist but hold no group, [SetBold]
    panics (index out of range). *)
Theorem Run_SetBold_IsBold x :
  (∀ x', SetBold NewCT_OnOff NewCT_RPr NewEG_RPrBase true x = Some x' →
     IsBold x' = Some true) ∧
  (∀ x', SetBold NewCT_OnOff NewCT_RPr NewEG_RPrBase false x = Some x' →
     ∃ rpr b bs, RPr (ensureRPR NewCT_RPr NewEG_RPrBase x) = Some rpr ∧
       EG_RPrBase rpr = Some b :: bs ∧
       (IsBold x' = Some true → IsBold_range bs = Some true) ∧
       (Some b ∉ bs → IsBold x' = IsBold_range bs)) ∧
  (∀ rpr v, RPr x = Some rpr → EG_RPrBase rpr = [] →
     SetBold NewCT_OnOff NewCT_RPr NewEG_RPrBase v x = None).
Proof.
  split; [| split].
  - intros x' (rpr & b & bs & _ & _ & ->)%SetBold_inv. done.
  - intros x' (rpr & b & bs & Hr & Hb & ->)%SetBold_inv.
    exists rpr, b, bs. split; [done |]. split; [done |].
    split; [by intros H | by intros _].
  - intros rpr v Hr Hb. unfold SetBold, ensureRPR, update_base0.
    rewrite Hr. cbn. rewrite Hr. cbn. rewrite Hb. by destruct v.
Qed.

(** X15. Bold and italic do not touch each other, and neither touches the
    text: after [SetItalic], [IsBold] and [Text] are what they are on the
    run with its properties in place, and likewise [IsItalic] and [Text]
    after [SetBold]. *)
Theorem Run_bold_italic_text_independent x x' (v : bool) :
  (SetItalic NewCT_OnOff NewCT_RPr NewEG_RPrBase v x = Some x' →
     IsBold x' = IsBold (ensureRPR NewCT_RPr NewEG_RPrBase x) ∧ Text x' = Text x) ∧
  (SetBold NewCT_OnOff NewCT_RPr NewEG_RPrBase v x = Some x' →
     IsItalic x' = IsItalic (ensureRPR NewCT_RPr NewEG_RPrBase x) ∧ Text x' = Text x) ∧
  (is_Some (RPr x) → ensureRPR NewCT_RPr NewEG_RPrBase x = x).
Proof.
  split; [| split].
  - intros (rpr & b & bs & Hr & Hb & ->)%SetItalic_inv.
    split; [| done]. unfold IsBold. rewrite Hr. cbn. by rewrite Hb.
  - intros (rpr & b & bs & Hr & Hb & ->)%SetBold_inv.
    split; [| done]. unfold IsItalic. rewrite Hr. cbn. by rewrite Hb.
  - intros [rpr Hr]. unfold ensureRPR. by rewrite Hr.
Qed.

(** X16. On a run without properties [SetBold] creates them and does not
    panic, and [IsBold] then returns what was set, provided the new
    properties come without groups of their own. *)
Theorem Run_SetBold_fresh x (v : bool) :
  RPr x = None → EG_RPrBase NewCT_RPr = [] →
  ∃ x', SetBold NewCT_OnOff NewCT_RPr NewEG_RPrBase v x = Some x' ∧
    IsBold x' = Some v ∧
    RPr x' = Some (Mk_CT_RPr
                     [Some (Mk_EG_RPrBase (if v then Some NewCT_OnOff else None)
                              (if v then Some NewCT_OnOff else None)
                              (I NewEG_RPrBase) (ICs NewEG_RPrBase)
                              (EG_RPrBase_rest NewEG_RPrBase))]
                     (CT_RPr_rest NewCT_RPr)).
Proof.
  intros Hr Hb. unfold SetBold, ensureRPR, update_base0. rewrite Hr, Hb.
  destruct v; cbn; eexists; (split; [done |]); by split.
Qed.

End RunFacts.

(** ** Runs of text on concrete inputs *)

Lemma Run_Text_after_add_witness :
  let x := document.AddText blank_text blank_ic "ab" empty_run in
  document.Text (document.AddText blank_text blank_ic "c" x) = Some "abc" ∧
  document.Text (document.AddTab tt blank_ic x) = Some ("ab" +:+ String "009"%char EmptyString) ∧
  document.Text (document.AddBreak tt blank_ic x) = Some "ab".
Proof.
  exact (Run_Text_after_add blank_text tt tt blank_ic
           (document.AddText blank_text blank_ic "ab" empty_run) "c" "ab"
           eq_refl eq_refl eq_refl).
Defined.

Lemma Run_SetBold_IsBold_witness :
  (∃ x', document.SetBold tt blank_rpr blank_base false two_group_run = Some x' ∧
         document.IsBold x' = Some true) ∧
  document.SetBold tt blank_rpr blank_base true hollow_run = None.
Proof.
  destruct (Run_SetBold_IsBold tt blank_rpr blank_base two_group_run) as (_ & Hoff & _).
  destruct (Run_SetBold_IsBold tt blank_rpr blank_base hollow_run) as (_ & _ & Hnone).
  split.
  - eexists. split; [reflexivity |].
    destruct (Hoff _ eq_refl) as (rpr & b & bs & Hr & Hb & _ & Hlater).
    cbn in Hr. injection Hr as <-. cbn in Hb. injection Hb as <- <-.
    rewrite Hlater; [reflexivity |].
    intros Hin%list_elem_of_singleton. discriminate Hin.
  - exact (Hnone blank_rpr true eq_refl eq_refl).
Defined.

Lemma Run_bold_italic_text_independent_witness :
  ∃ x', document.SetItalic tt blank_rpr blank_base true two_group_run = Some x' ∧
    document.IsBold x' = Some true ∧ document.Text x' = Some EmptyString.
Proof.
  eexists. split; [reflexivity |].
  exact (proj1 (Run_bold_italic_text_independent tt blank_rpr blank_base
                  two_group_run _ true) eq_refl).
Defined.

Lemma Run_SetBold_fresh_witness :
  ∃ x', document.SetBold tt blank_rpr blank_base true empty_run = Some x' ∧
    document.IsBold x' = Some true ∧
    document.RPr x'
      = Some (document.Mk_CT_RPr
                [Some (document.Mk_EG_RPrBase (Some tt) (Some tt) None None tt)] tt).
Proof.
  exact (Run_SetBold_fresh tt blank_rpr blank_base empty_run true eq_refl eq_refl).
Defined.
